(** * Real-time polling service: vote ledger, snapshot builder and fan-out

    A shallow embedding of [database.py], [schemas.py], [websocket.py] and
    [main.py].  A table is the list of its rows, written in the order of
    their serial ids; the subscriber dictionary of the connection manager
    is a finite map from poll ids to lists of websocket handles; a frame
    is the Python value handed to [json.dumps]; and the request handlers
    live in a small state-and-exception monad over the whole server
    state.

    No query of the program has an ORDER BY, so the order in which the
    database hands rows over is not the program's: the statements below
    speak of which rows an answer holds and how many, never of their
    order. *)

From Stdlib Require Import ZArith List Bool Lia Sorted.
From stdpp Require Import gmap sets list strings.
Import ListNotations.

Open Scope Z_scope.

(** ** database.py: rows and tables *)

Definition datetime := Z.

(** A websocket object, compared by identity. *)
Definition WebSocket := nat.

Record User := mkUser {
  user_id : Z;
  user_name : string;
  user_email : string;
  user_password_hash : string;
  user_created_at : datetime }.

Record Poll := mkPoll {
  poll_id : Z;
  poll_question : string;
  poll_is_published : bool;
  poll_created_at : datetime;
  poll_updated_at : datetime;
  poll_creator_id : Z }.

Record PollOption := mkPollOption {
  option_id : Z;
  option_text : string;
  option_poll_id : Z;
  option_created_at : datetime }.

(** A row of the association table [user_poll_option_votes] ('votes'). *)
Record Vote := mkVote {
  vote_id : Z;
  vote_user_id : Z;
  vote_poll_option_id : Z;
  vote_created_at : datetime }.

(** The four tables, each with the sequence that feeds its serial primary
    key.  The application never updates or deletes a row; a new row gets
    the next value of the sequence and is written at the end of the list. *)
Record Store := mkStore {
  users : list User;
  polls : list Poll;
  poll_options : list PollOption;
  votes : list Vote;
  users_id_seq : Z;
  polls_id_seq : Z;
  poll_options_id_seq : Z;
  votes_id_seq : Z }.

Definition empty_store : Store := mkStore [] [] [] [] 1 1 1 1.

(** [db.query(X).filter(X.id == i).first()] *)
Definition query_user (s : Store) (i : Z) : option User :=
  List.find (fun u => user_id u =? i) (users s).

Definition query_user_by_email (s : Store) (e : string) : option User :=
  List.find (fun u => String.eqb (user_email u) e) (users s).

Definition query_poll (s : Store) (i : Z) : option Poll :=
  List.find (fun p => poll_id p =? i) (polls s).

Definition query_poll_option (s : Store) (i : Z) : option PollOption :=
  List.find (fun o => option_id o =? i) (poll_options s).

(** [db.query(user_poll_option_votes).filter(c.user_id == i).all()] *)
Definition query_votes_of_user (s : Store) (i : Z) : list Vote :=
  List.filter (fun v => vote_user_id v =? i) (votes s).

(** What a relationship loader does with the rows of its SELECT: objects
    are unique per primary key, the first occurrence stays. *)
Fixpoint unique_by {A : Type} (key : A -> Z) (seen : list Z) (l : list A) : list A :=
  match l with
  | [] => []
  | a :: r =>
      if existsb (Z.eqb (key a)) seen then unique_by key seen r
      else a :: unique_by key (key a :: seen) r
  end.

(** relationship [Poll.options]: the option rows that point at the poll.
    The relationship has no [order_by], so the order in which the rows are
    loaded is up to the database; here they come as the table lists
    them. *)
Definition Poll_options (s : Store) (p : Poll) : list PollOption :=
  List.filter (fun o => option_poll_id o =? poll_id p) (poll_options s).

(** relationship [PollOption.poll] (many-to-one: [None] when no row matches) *)
Definition PollOption_poll (s : Store) (o : PollOption) : option Poll :=
  query_poll s (option_poll_id o).

(** relationship [PollOption.voters]: users joined through 'votes' *)
Definition PollOption_voters (s : Store) (o : PollOption) : list User :=
  unique_by user_id []
    (flat_map (fun v => List.filter (fun u => user_id u =? vote_user_id v) (users s))
       (List.filter (fun v => vote_poll_option_id v =? option_id o) (votes s))).

(** relationship [User.voted_options]: options joined through 'votes' *)
Definition User_voted_options (s : Store) (u : User) : list PollOption :=
  unique_by option_id []
    (flat_map (fun v => List.filter (fun o => option_id o =? vote_poll_option_id v)
                          (poll_options s))
       (List.filter (fun v => vote_user_id v =? user_id u) (votes s))).

(** A [String(n)] column: the database refuses a longer value. *)
Definition fits (n : nat) (value : string) : bool := (String.length value <=? n)%nat.

(** The rows an INSERT writes; [now] is the database clock read by
    [server_default=func.now()]. *)
Definition append_user (now : datetime) (name email pw : string) (s : Store) : User * Store :=
  let u := mkUser (users_id_seq s) name email pw now in
  (u, mkStore (users s ++ [u]) (polls s) (poll_options s) (votes s)
        (users_id_seq s + 1) (polls_id_seq s) (poll_options_id_seq s) (votes_id_seq s)).

(** INSERT INTO users: [name], [email] and [password_hash] are
    [String(255)]; [None] is the statement refused. *)
Definition insert_user (now : datetime) (name email pw : string) (s : Store)
    : option (User * Store) :=
  if fits 255 name && fits 255 email && fits 255 pw
  then Some (append_user now name email pw s) else None.

Definition insert_poll (now : datetime) (question : string) (published : bool)
    (creator : Z) (s : Store) : Poll * Store :=
  let p := mkPoll (polls_id_seq s) question published now now creator in
  (p, mkStore (users s) (polls s ++ [p]) (poll_options s) (votes s)
        (users_id_seq s) (polls_id_seq s + 1) (poll_options_id_seq s) (votes_id_seq s)).

Definition append_poll_option (now : datetime) (text : string) (pid : Z) (s : Store) : Store :=
  let o := mkPollOption (poll_options_id_seq s) text pid now in
  mkStore (users s) (polls s) (poll_options s ++ [o]) (votes s)
    (users_id_seq s) (polls_id_seq s) (poll_options_id_seq s + 1) (votes_id_seq s).

(** INSERT INTO poll_options: [text] is [String(500)]. *)
Definition insert_poll_option (now : datetime) (text : string) (pid : Z) (s : Store)
    : option Store :=
  if fits 500 text then Some (append_poll_option now text pid s) else None.

(** A sequence is not rolled back with the transaction that drew from
    it: the values a refused INSERT used up stay used. *)
Definition skip_users_id (n : nat) (s : Store) : Store :=
  mkStore (users s) (polls s) (poll_options s) (votes s)
    (users_id_seq s + Z.of_nat n) (polls_id_seq s) (poll_options_id_seq s) (votes_id_seq s).

Definition skip_poll_options_id (n : nat) (s : Store) : Store :=
  mkStore (users s) (polls s) (poll_options s) (votes s)
    (users_id_seq s) (polls_id_seq s) (poll_options_id_seq s + Z.of_nat n) (votes_id_seq s).

Definition insert_vote (now : datetime) (uid oid : Z) (s : Store) : Store :=
  let v := mkVote (votes_id_seq s) uid oid now in
  mkStore (users s) (polls s) (poll_options s) (votes s ++ [v])
    (users_id_seq s) (polls_id_seq s) (poll_options_id_seq s) (votes_id_seq s + 1).

(** ** schemas.py *)

Record UserCreate := mkUserCreate {
  uc_name : string; uc_email : string; uc_password : string }.

Record UserResponse := mkUserResponse {
  ur_id : Z; ur_name : string; ur_email : string; ur_created_at : datetime }.

Record PollOptionCreate := mkPollOptionCreate { oc_text : string }.

Record PollOptionResponse := mkPollOptionResponse {
  or_id : Z; or_text : string; or_vote_count : Z }.

Record PollCreate := mkPollCreate {
  pc_question : string; pc_options : list PollOptionCreate; pc_is_published : bool }.

Record PollResponse := mkPollResponse {
  pr_id : Z;
  pr_question : string;
  pr_is_published : bool;
  pr_created_at : datetime;
  pr_updated_at : datetime;
  pr_creator_id : Z;
  pr_options : list PollOptionResponse }.

Record VoteCreate := mkVoteCreate { vc_poll_option_id : Z }.

Record VoteResponse := mkVoteResponse {
  vr_user_id : Z; vr_poll_option_id : Z; vr_created_at : datetime }.

(** ** The server state and the handler monad *)

(** The Python values a frame is made of. *)
#[warnings="-register-all"] Inductive pyval :=
| PyInt (n : Z)
| PyStr (s : string)
| PyBool (b : bool)
| PyDatetime (t : datetime)
| PyList (items : list pyval)
| PyDict (items : list (string * pyval)).

(** [.dict()] of the response models: every field as it is, so
    [created_at] and [updated_at] stay [datetime] objects. *)
Definition PollOptionResponse_dict (r : PollOptionResponse) : pyval :=
  PyDict [ ("id", PyInt (or_id r)); ("text", PyStr (or_text r));
           ("vote_count", PyInt (or_vote_count r)) ]%string.

Definition PollResponse_dict (r : PollResponse) : pyval :=
  PyDict [ ("id", PyInt (pr_id r)); ("question", PyStr (pr_question r));
           ("is_published", PyBool (pr_is_published r));
           ("created_at", PyDatetime (pr_created_at r));
           ("updated_at", PyDatetime (pr_updated_at r));
           ("creator_id", PyInt (pr_creator_id r));
           ("options", PyList (map PollOptionResponse_dict (pr_options r))) ]%string.

(** The dict built for a websocket: [{"type": kind, "poll": poll_data.dict()}]. *)
Definition frame (kind : string) (poll_data : PollResponse) : pyval :=
  PyDict [ ("type", PyStr kind); ("poll", PollResponse_dict poll_data) ]%string.

(** What the default encoder of [json] can write: it has no case for a
    [datetime]. *)
Fixpoint json_encodable (v : pyval) : bool :=
  match v with
  | PyDatetime _ => false
  | PyList items => forallb json_encodable items
  | PyDict items => forallb (fun item => json_encodable (snd item)) items
  | _ => true
  end.

(** One call of [send_text], with the text it was given (written as the
    value the text encodes) and whether it went through. *)
Record Attempt := mkAttempt {
  att_conn : WebSocket; att_payload : pyval; att_delivered : bool }.

(** websocket.py: the fields of [ConnectionManager]. *)
Record ConnectionManager := mkManager {
  active_connections : list WebSocket;
  poll_subscribers : gmap Z (list WebSocket) }.

Definition new_manager : ConnectionManager := mkManager [] ∅.

(** The database behind the session, the module-level [manager], and the
    trace of everything the server tried to push to its websockets. *)
Record World := mkWorld {
  db : Store;
  manager : ConnectionManager;
  wire : list Attempt }.

Definition initial_world : World := mkWorld empty_store new_manager [].

(** What a handler reads from outside: the database clock, the
    application clock, whether a [send_text] on a websocket goes through,
    the password hash of the [auth] module, and how many values of its
    sequence a refused INSERT has used up. *)
Record Env := mkEnv {
  now : datetime;
  utcnow : datetime;
  send_ok : WebSocket -> bool;
  hash_password : string -> string;
  seq_lost : nat }.

Inductive exn :=
| HTTPException (status_code : Z) (detail : string)
| AttributeError
| KeyError
| ValueError
| TypeError
| DataError
| WebSocketDisconnect.

(** A raised exception keeps the state reached so far: nothing here rolls
    a committed write back. *)
Definition M (A : Type) : Type := World -> World * (exn + A).

Definition ret {A} (a : A) : M A := fun w => (w, inr a).

Definition raise {A} (e : exn) : M A := fun w => (w, inl e).

Definition bind {A B} (m : M A) (k : A -> M B) : M B :=
  fun w => match m w with
           | (w', inl e) => (w', inl e)
           | (w', inr a) => k a w'
           end.

Definition try_except {A} (m : M A) (handler : exn -> M A) : M A :=
  fun w => match m w with
           | (w', inl e) => handler e w'
           | r => r
           end.

Declare Scope handler_scope.
Delimit Scope handler_scope with handler.
Notation "'let*' x ':=' m 'in' k" := (bind m (fun x => k))
  (at level 10, x name, m at level 100, k at level 200) : handler_scope.
Notation "m ';;' k" := (bind m (fun _ => k))
  (at level 100, k at level 200, right associativity) : handler_scope.
Open Scope handler_scope.

Definition session : M Store := fun w => (w, inr (db w)).

Definition commit (f : Store -> Store) : M unit :=
  fun w => (mkWorld (f (db w)) (manager w) (wire w), inr tt).

(** [db.commit()] of INSERTs the database may refuse: every row is
    written, or none is and [DataError] is raised. *)
Definition commit_checked (f : Store -> option Store) (refused : Store -> Store) : M unit :=
  fun w => match f (db w) with
           | Some s' => (mkWorld s' (manager w) (wire w), inr tt)
           | None => (mkWorld (refused (db w)) (manager w) (wire w), inl DataError)
           end.

Definition get_manager : M ConnectionManager := fun w => (w, inr (manager w)).

Definition set_manager (m : ConnectionManager) : M unit :=
  fun w => (mkWorld (db w) m (wire w), inr tt).

(** [.first()] followed by [if not x: raise e] *)
Definition or_raise {A} (o : option A) (e : exn) : M A :=
  match o with Some a => ret a | None => raise e end.

(** [json.dumps(data)]: the text, or [TypeError] for a value the encoder
    cannot write. *)
Definition json_dumps (data : pyval) : M pyval :=
  if json_encodable data then ret data else raise TypeError.

(** [await connection.send_text(text)] *)
Definition send_text (env : Env) (c : WebSocket) (text : pyval) : M unit :=
  fun w =>
    if send_ok env c
    then (mkWorld (db w) (manager w) (wire w ++ [mkAttempt c text true]), inr tt)
    else (mkWorld (db w) (manager w) (wire w ++ [mkAttempt c text false]),
          inl WebSocketDisconnect).

(** ** websocket.py *)

(** [x in l] and [l.remove(x)] on a Python list of websockets. *)
Definition ws_in (x : WebSocket) (l : list WebSocket) : bool :=
  existsb (Nat.eqb x) l.

Fixpoint list_remove (x : WebSocket) (l : list WebSocket) : option (list WebSocket) :=
  match l with
  | [] => None
  | y :: r => if Nat.eqb x y then Some r
              else match list_remove x r with
                   | Some r' => Some (y :: r')
                   | None => None
                   end
  end.

(** [if x in l: l.remove(x)] *)
Definition discard (x : WebSocket) (l : list WebSocket) : list WebSocket :=
  if ws_in x l then match list_remove x l with Some l' => l' | None => l end else l.

Definition connect (websocket : WebSocket) : M unit :=
  let* m := get_manager in
  set_manager (mkManager (active_connections m ++ [websocket]) (poll_subscribers m)).

Definition disconnect (websocket : WebSocket) : M unit :=
  let* m := get_manager in
  set_manager (mkManager (discard websocket (active_connections m))
                 (discard websocket <$> poll_subscribers m)).

Definition subscribe_to_poll (pid : Z) (websocket : WebSocket) : M unit :=
  let* m := get_manager in
  let subs := match poll_subscribers m !! pid with
              | Some l => poll_subscribers m
              | None => <[pid := []]> (poll_subscribers m)
              end in
  let l := default [] (subs !! pid) in
  set_manager (mkManager (active_connections m)
                 (if ws_in websocket l then subs else <[pid := l ++ [websocket]]> subs)).

(** The first loop of [broadcast_poll_update]: for each connection the
    data is serialised and sent; a connection for which either step
    raises lands in [disconnected]. *)
Fixpoint send_each (env : Env) (data : pyval) (conns disconnected : list WebSocket)
    : M (list WebSocket) :=
  match conns with
  | [] => ret disconnected
  | connection :: rest =>
      let* disconnected' :=
        try_except (let* text := json_dumps data in
                    send_text env connection text ;; ret disconnected)
                   (fun _ => ret (disconnected ++ [connection])) in
      send_each env data rest disconnected'
  end.

(** The second loop: [self.poll_subscribers[poll_id].remove(conn)]. *)
Fixpoint remove_each (pid : Z) (disconnected : list WebSocket) : M unit :=
  match disconnected with
  | [] => ret tt
  | conn :: rest =>
      let* m := get_manager in
      let* l := or_raise (poll_subscribers m !! pid) KeyError in
      let* l' := or_raise (list_remove conn l) ValueError in
      set_manager (mkManager (active_connections m) (<[pid := l']> (poll_subscribers m))) ;;
      remove_each pid rest
  end.

Definition broadcast_poll_update (env : Env) (pid : Z) (data : pyval) : M unit :=
  let* m := get_manager in
  match poll_subscribers m !! pid with
  | Some conns =>
      let* disconnected := send_each env data conns [] in
      remove_each pid disconnected
  | None => ret tt
  end.

(** ** main.py *)

Definition option_response (s : Store) (o : PollOption) : PollOptionResponse :=
  mkPollOptionResponse (option_id o) (option_text o)
    (Z.of_nat (length (PollOption_voters s o))).

(** The body of [get_poll_with_votes] once the poll row is at hand. *)
Definition poll_response (s : Store) (poll : Poll) : PollResponse :=
  let options_with_votes := map (option_response s) (Poll_options s poll) in
  mkPollResponse (poll_id poll) (poll_question poll) (poll_is_published poll)
    (poll_created_at poll) (poll_updated_at poll) (poll_creator_id poll)
    options_with_votes.

Definition get_poll_with_votes (pid : Z) : M PollResponse :=
  let* s := session in
  let* poll := or_raise (query_poll s pid) (HTTPException 404 "Poll not found"%string) in
  ret (poll_response s poll).

Definition create_user (env : Env) (user : UserCreate) : M UserResponse :=
  let* s := session in
  match query_user_by_email s (uc_email user) with
  | Some _ => raise (HTTPException 400 "Email already registered"%string)
  | None =>
      let hashed_password := hash_password env (uc_password user) in
      match insert_user (now env) (uc_name user) (uc_email user) hashed_password s with
      | Some (db_user, s') =>
          commit (fun _ => s') ;;
          ret (mkUserResponse (user_id db_user) (user_name db_user) (user_email db_user)
                 (user_created_at db_user))
      | None => commit (skip_users_id (seq_lost env)) ;; raise DataError
      end
  end.

(** The loop of [create_poll]: one new [PollOption] per option of the
    request, written by the commit that follows it. *)
Definition add_options (env : Env) (pid : Z) (opts : list PollOptionCreate) (s : Store)
    : option Store :=
  fold_left (fun acc option_data =>
               match acc with
               | Some s' => insert_poll_option (now env) (oc_text option_data) pid s'
               | None => None
               end) opts (Some s).

Definition create_poll (env : Env) (poll : PollCreate) (creator_id : Z) : M PollResponse :=
  let* s := session in
  let* creator := or_raise (query_user s creator_id)
                    (HTTPException 404 "Creator not found"%string) in
  let '(db_poll, s') :=
    insert_poll (now env) (pc_question poll) (pc_is_published poll) creator_id s in
  commit (fun _ => s') ;;
  commit_checked (add_options env (poll_id db_poll) (pc_options poll))
    (skip_poll_options_id (seq_lost env)) ;;
  get_poll_with_votes (poll_id db_poll).

Definition already_voted_detail : string := "User has already voted for this poll".

Definition cast_vote (env : Env) (vote : VoteCreate) (uid : Z) : M VoteResponse :=
  let* s := session in
  let* user := or_raise (query_user s uid) (HTTPException 404 "User not found"%string) in
  let* poll_option := or_raise (query_poll_option s (vc_poll_option_id vote))
                        (HTTPException 404 "Poll option not found"%string) in
  let existing_votes := query_votes_of_user s uid in
  let* poll := or_raise (PollOption_poll s poll_option) AttributeError in
  let poll_option_ids_for_poll := map option_id (Poll_options s poll) in
  (if existsb (fun existing_vote =>
                 existsb (Z.eqb (vote_poll_option_id existing_vote)) poll_option_ids_for_poll)
        existing_votes
   then raise (HTTPException 400 already_voted_detail)
   else ret tt) ;;
  (if existsb (fun o => option_id o =? option_id poll_option) (User_voted_options s user)
   then ret tt
   else commit (insert_vote (now env) (user_id user) (option_id poll_option))) ;;
  let* poll_data := get_poll_with_votes (option_poll_id poll_option) in
  broadcast_poll_update env (option_poll_id poll_option)
    (frame "poll_update" poll_data) ;;
  ret (mkVoteResponse uid (vc_poll_option_id vote) (utcnow env)).

(** [websocket_endpoint] up to its receive loop.  Any exception of the
    body ends in [manager.disconnect(websocket)]. *)
Definition websocket_endpoint (env : Env) (websocket : WebSocket) (pid : Z) : M unit :=
  connect websocket ;;
  subscribe_to_poll pid websocket ;;
  try_except
    (let* poll_data := get_poll_with_votes pid in
     let* text := json_dumps (frame "initial_data" poll_data) in
     send_text env websocket text)
    (fun _ => disconnect websocket).

(** ** The requests the server handles *)

(** The HTTP routes, the websocket route up to its receive loop
    ([OpWebsocket]) and the end of that loop ([OpDisconnect]), and the
    manager's [subscribe_to_poll] called on its own ([OpSubscribe]).  A
    handler has no [await] between reading the store and committing, so
    requests are taken one at a time. *)
Inductive Op :=
| OpCreateUser (env : Env) (user : UserCreate)
| OpCreatePoll (env : Env) (poll : PollCreate) (creator_id : Z)
| OpBuildSnapshot (pid : Z)
| OpCastVote (env : Env) (vote : VoteCreate) (uid : Z)
| OpSubscribe (pid : Z) (websocket : WebSocket)
| OpDisconnect (websocket : WebSocket)
| OpWebsocket (env : Env) (websocket : WebSocket) (pid : Z).

Definition step (op : Op) (w : World) : World :=
  match op with
  | OpCreateUser env user => fst (create_user env user w)
  | OpCreatePoll env poll creator_id => fst (create_poll env poll creator_id w)
  | OpBuildSnapshot pid => fst (get_poll_with_votes pid w)
  | OpCastVote env vote uid => fst (cast_vote env vote uid w)
  | OpSubscribe pid websocket => fst (subscribe_to_poll pid websocket w)
  | OpDisconnect websocket => fst (disconnect websocket w)
  | OpWebsocket env websocket pid => fst (websocket_endpoint env websocket pid w)
  end.

Definition run (ops : list Op) (w : World) : World :=
  fold_left (fun acc op => step op acc) ops w.

(** ** A small running system used in the examples *)

Definition env0 : Env := mkEnv 100 200 (fun c => negb (Nat.eqb c 2)) (fun p => p) 0.

Definition demo_ops : list Op :=
  [ OpCreateUser env0 (mkUserCreate "ann" "ann@x" "pw");
    OpCreateUser env0 (mkUserCreate "bob" "bob@x" "pw");
    OpCreatePoll env0 (mkPollCreate "tea?" [mkPollOptionCreate "yes"; mkPollOptionCreate "no"] true) 1;
    OpCreatePoll env0 (mkPollCreate "cat?" [mkPollOptionCreate "yes"] true) 2;
    OpWebsocket env0 1%nat 1;
    OpWebsocket env0 2%nat 1;
    OpWebsocket env0 3%nat 2 ].

Definition demo_world : World := run demo_ops initial_world.

(** ** Vocabulary of the specification *)

(** The subscriber list of a poll ([[]] for a poll id that is no key). *)
Definition subscribers (m : ConnectionManager) (pid : Z) : list WebSocket :=
  default [] (poll_subscribers m !! pid).

(** The stored vote facts of user [uid] for option [oid]. *)
Definition stored_votes (s : Store) (uid oid : Z) : list Vote :=
  List.filter (fun v => (vote_user_id v =? uid) && (vote_poll_option_id v =? oid)) (votes s).

(** Option [oid] is a row of 'poll_options' that points at poll [pid]. *)
Definition option_of_poll (s : Store) (oid pid : Z) : bool :=
  existsb (fun o => (option_id o =? oid) && (option_poll_id o =? pid)) (poll_options s).

(** The votes user [uid] holds on options of poll [pid]. *)
Definition votes_in_poll (s : Store) (uid pid : Z) : list Vote :=
  List.filter (fun v => (vote_user_id v =? uid) && option_of_poll s (vote_poll_option_id v) pid)
    (votes s).

(** I1: at most one vote per user and poll. *)
Definition I1 (s : Store) : Prop :=
  ∀ uid pid, (length (votes_in_poll s uid pid) ≤ 1)%nat.

(** Serial primary keys: ids were handed out in increasing order by a
    sequence that is ahead of all of them. *)
Definition serial_ok (ids : list Z) (next : Z) : Prop :=
  StronglySorted Z.lt ids ∧ Forall (fun i => i < next) ids.

(** What the schema of [database.py] guarantees of a store: primary keys
    from their sequences, and the three foreign keys the handlers follow. *)
Record schema_ok (s : Store) : Prop := {
  users_pk : serial_ok (map user_id (users s)) (users_id_seq s);
  polls_pk : serial_ok (map poll_id (polls s)) (polls_id_seq s);
  poll_options_pk : serial_ok (map option_id (poll_options s)) (poll_options_id_seq s);
  votes_user_fk : ∀ v, In v (votes s) → In (vote_user_id v) (map user_id (users s));
  votes_option_fk :
    ∀ v, In v (votes s) → In (vote_poll_option_id v) (map option_id (poll_options s));
  poll_options_poll_fk :
    ∀ o, In o (poll_options s) → In (option_poll_id o) (map poll_id (polls s)) }.

(** The distinct users that hold a stored vote for option [oid]. *)
Definition distinct_voters (s : Store) (oid : Z) : gset Z :=
  list_to_set (map vote_user_id
                 (List.filter (fun v => vote_poll_option_id v =? oid) (votes s))).

(** The vote count a snapshot of poll [pid] reports for option [oid]. *)
Definition snapshot_count (s : Store) (pid oid : Z) : option Z :=
  match query_poll s pid with
  | Some poll =>
      option_map or_vote_count
        (List.find (fun r => or_id r =? oid) (pr_options (poll_response s poll)))
  | None => None
  end.

(** The users of [uids] vote for option [oid], one after the other; the
    result is [None] as soon as one of the calls is rejected. *)
Fixpoint cast_votes (env : Env) (oid : Z) (uids : list Z) (w : World) : option World :=
  match uids with
  | [] => Some w
  | uid :: rest =>
      match cast_vote env (mkVoteCreate oid) uid w with
      | (w', inr _) => cast_votes env oid rest w'
      | (_, inl _) => None
      end
  end.

(** [l.remove(c)] for each [c] of [disconnected], in turn. *)
Fixpoint remove_all (disconnected l : list WebSocket) : option (list WebSocket) :=
  match disconnected with
  | [] => Some l
  | c :: rest => match list_remove c l with
                 | Some l' => remove_all rest l'
                 | None => None
                 end
  end.

(** The frames that reached a websocket. *)
Definition delivered (tr : list Attempt) : list Attempt :=
  List.filter att_delivered tr.

(** Requests as they reach the server through its routes; a bare
    [subscribe_to_poll] is not one, [main.py] calls it only from within
    the websocket route. *)
Definition is_route (op : Op) : bool :=
  match op with
  | OpSubscribe _ _ => false
  | _ => true
  end.


(** ** Closed forms used in the proofs *)

Definition attempt_of (env : Env) (data : pyval) (c : WebSocket) : Attempt :=
  mkAttempt c data (send_ok env c).

(** The body of the [try] of [broadcast_poll_update] runs through for
    [c]: the data can be serialised and the websocket takes the text. *)
Definition goes_out (env : Env) (data : pyval) (c : WebSocket) : bool :=
  json_encodable data && send_ok env c.

(** The calls of [send_text] one broadcast makes. *)
Definition attempts (env : Env) (data : pyval) (conns : list WebSocket) : list Attempt :=
  if json_encodable data then map (attempt_of env data) conns else [].

(** What one broadcast does to the state, in closed form. *)
Definition after_broadcast (env : Env) (pid : Z) (data : pyval) (w : World) : World :=
  match poll_subscribers (manager w) !! pid with
  | Some conns =>
      mkWorld (db w)
        (mkManager (active_connections (manager w))
           (<[pid := List.filter (goes_out env data) conns]> (poll_subscribers (manager w))))
        (wire w ++ attempts env data conns)
  | None => w
  end.

(** The scan of [cast_vote]: some vote of the user is on an option of [poll]. *)
Definition prior_vote_in_poll (s : Store) (uid : Z) (poll : Poll) : bool :=
  existsb (fun existing_vote =>
             existsb (Z.eqb (vote_poll_option_id existing_vote))
               (map option_id (Poll_options s poll)))
    (query_votes_of_user s uid).

(** The state and result of a vote that passed the checks. *)
Definition vote_accepted (env : Env) (uid : Z) (o : PollOption) (poll : Poll) (w : World)
    : World * (exn + VoteResponse) :=
  let s' := insert_vote (now env) uid (option_id o) (db w) in
  (after_broadcast env (option_poll_id o)
     (frame "poll_update" (poll_response s' poll))
     (mkWorld s' (manager w) (wire w)),
   inr (mkVoteResponse uid (option_id o) (utcnow env))).

(** The rows [create_poll] adds for the options of its request. *)
Fixpoint option_rows (t : datetime) (pid next : Z) (opts : list PollOptionCreate)
    : list PollOption :=
  match opts with
  | [] => []
  | option_data :: rest =>
      mkPollOption next (oc_text option_data) pid t :: option_rows t pid (next + 1) rest
  end.

(** ** Further states used in the examples *)

Definition ann : UserCreate := mkUserCreate "ann" "ann@x" "pw".

(** A later reading of both clocks. *)
Definition env_later : Env := mkEnv 500 600 (fun _ => true) (fun p => p) 2.

(** Ann has voted for option 1 of poll 1. *)
Definition voted_world : World :=
  run (demo_ops ++ [OpCastVote env0 (mkVoteCreate 1) 1]) initial_world.

(** Option 1 belongs to poll 1. *)
Definition world_a : World :=
  run [ OpCreateUser env0 ann;
        OpCreatePoll env0 (mkPollCreate "tea?" [mkPollOptionCreate "yes"] true) 1 ]
    initial_world.

(** Option 1 belongs to poll 2. *)
Definition world_b : World :=
  run [ OpCreateUser env0 ann;
        OpCreatePoll env0 (mkPollCreate "tea?" [] true) 1;
        OpCreatePoll env0 (mkPollCreate "cat?" [mkPollOptionCreate "yes"] true) 1 ]
    initial_world.

(** Sockets 1, 2 and 4 are in the subscriber list of poll 1, socket 3 in
    that of poll 2. *)
Definition fanout_world : World :=
  run [ OpSubscribe 1 1%nat; OpSubscribe 1 2%nat; OpSubscribe 1 4%nat;
        OpSubscribe 2 3%nat ] demo_world.

(** A store no request sequence produces: Ann with two votes on poll 1. *)
Definition double_vote_store : Store := insert_vote 100 1 2 (db voted_world).

Definition tea_poll : Poll := mkPoll 1 "tea?" true 100 100 1.

(** Requests through routes only, one of them a websocket for a missing poll. *)
Definition route_ops : list Op :=
  demo_ops ++ [ OpWebsocket env0 5%nat 77;
                OpCastVote env0 (mkVoteCreate 1) 1;
                OpDisconnect 1%nat ].

(** ** main.py: the read routes *)

(** What [response_model=UserResponse] keeps of a user row. *)
Definition user_response (u : User) : UserResponse :=
  mkUserResponse (user_id u) (user_name u) (user_email u) (user_created_at u).

Definition get_user (uid : Z) : M UserResponse :=
  let* s := session in
  let* user := or_raise (query_user s uid) (HTTPException 404 "User not found"%string) in
  ret (user_response user).

(** [.offset(skip).limit(limit).all()] over the rows a query selects: the
    database refuses a negative OFFSET or LIMIT ([DataError]), and the
    routes hand [skip] and [limit] on as they come.  Otherwise the answer
    is a stretch of at most [limit] of the rows; with no ORDER BY in the
    query, which stretch is up to the database, and here it is taken from
    the list of the table. *)
Definition offset_limit {A} (skip limit : Z) (rows : list A) : M (list A) :=
  if (skip <? 0) || (limit <? 0) then raise DataError
  else ret (take (Z.to_nat limit) (drop (Z.to_nat skip) rows)).

Definition get_users (skip limit : Z) : M (list UserResponse) :=
  let* s := session in
  let* users := offset_limit skip limit (users s) in
  ret (map user_response users).

Definition get_poll (pid : Z) : M PollResponse := get_poll_with_votes pid.

(** The comprehension of [get_polls]. *)
Fixpoint poll_responses (ps : list Poll) : M (list PollResponse) :=
  match ps with
  | [] => ret []
  | poll :: rest =>
      let* r := get_poll_with_votes (poll_id poll) in
      let* rs := poll_responses rest in
      ret (r :: rs)
  end.

Definition get_polls (skip limit : Z) : M (list PollResponse) :=
  let* s := session in
  let* polls := offset_limit skip limit (List.filter poll_is_published (polls s)) in
  poll_responses polls.

(** ** Further vocabulary *)

(** No poll lists a websocket twice. *)
Definition registry_nodup (m : ConnectionManager) : Prop :=
  ∀ pid, NoDup (subscribers m pid).

(** The [unique=True] of [User.email]. *)
Definition emails_unique (s : Store) : Prop := NoDup (map user_email (users s)).

(** Every row of [s] is a row of [s'], at its place. *)
Definition grows_to (s s' : Store) : Prop :=
  users s `prefix_of` users s' ∧ polls s `prefix_of` polls s' ∧
  poll_options s `prefix_of` poll_options s' ∧ votes s `prefix_of` votes s'.

(** The vote rows on options of poll [pid]. *)
Definition votes_on_poll (s : Store) (pid : Z) : list Vote :=
  List.filter (fun v => option_of_poll s (vote_poll_option_id v) pid) (votes s).

(** The votes a snapshot reports, over all its options. *)
Definition total_votes (r : PollResponse) : Z :=
  foldr Z.add 0 (map or_vote_count (pr_options r)).


(** A text of 501 characters. *)
Definition long_text : string := String.concat EmptyString (List.repeat "x"%string 501).

(** The option rows of a request, all of them written: what
    [add_options] gives when every text fits. *)
Definition append_options (env : Env) (pid : Z) (opts : list PollOptionCreate) (s : Store)
    : Store :=
  fold_left (fun acc option_data =>
               append_poll_option (now env) (oc_text option_data) pid acc) opts s.

(** Every option text of a request fits its [String(500)] column. *)
Definition options_fit (opts : list PollOptionCreate) : bool :=
  forallb (fun option_data => fits 500 (oc_text option_data)) opts.

(** The three [String(255)] values of a new user row fit their columns. *)
Definition user_fits (env : Env) (user : UserCreate) : bool :=
  fits 255 (uc_name user) && fits 255 (uc_email user)
  && fits 255 (hash_password env (uc_password user)).

(** * Properties *)

(** Unfolds the plumbing of the handler monad. *)
Ltac unfold_handler :=
  unfold bind, try_except, session, commit, commit_checked, get_manager, set_manager,
    or_raise, raise, ret.

(** ** Lists of websockets *)

Lemma ws_in_In x l : ws_in x l = true ↔ In x l.
Proof.
  unfold ws_in. rewrite existsb_exists. split.
  - intros (y & Hy & Heq). apply Nat.eqb_eq in Heq. by subst.
  - intros H. exists x. split; [done | apply Nat.eqb_refl].
Qed.

Lemma ws_in_false x l : ws_in x l = false ↔ ¬ In x l.
Proof.
  rewrite <- ws_in_In. destruct (ws_in x l); intuition congruence.
Qed.

Lemma list_remove_skip x pre l :
  ¬ In x pre → list_remove x (pre ++ x :: l) = Some (pre ++ l).
Proof.
  induction pre as [|y pre IH]; simpl; intros Hn.
  - by rewrite Nat.eqb_refl.
  - destruct (Nat.eqb_spec x y) as [->|Hne]; [tauto|].
    rewrite IH; [done | tauto].
Qed.

(** Removing the connections that failed, one [remove] each, leaves the
    ones that went through, in their order. *)
Lemma remove_all_failed (ok : WebSocket → bool) pre l :
  Forall (fun c => ok c = true) pre →
  remove_all (List.filter (fun c => negb (ok c)) l) (pre ++ l)
  = Some (pre ++ List.filter ok l).
Proof.
  revert pre. induction l as [|a l IH]; intros pre Hpre; simpl.
  - done.
  - destruct (ok a) eqn:Ha; simpl.
    + replace (pre ++ a :: l) with ((pre ++ [a]) ++ l) by by rewrite <- app_assoc.
      rewrite IH; [by rewrite <- app_assoc |].
      apply Forall_app; split; [done | by constructor].
    + rewrite list_remove_skip; [by apply IH |].
      intros Hin. rewrite Forall_forall in Hpre.
      apply list_elem_of_In, Hpre in Hin. congruence.
Qed.


(** ** The broadcaster *)

(** A frame of the server holds the two timestamps of its poll, so
    [json.dumps] raises on every frame. *)
Lemma frame_not_encodable kind poll_data : json_encodable (frame kind poll_data) = false.
Proof. reflexivity. Qed.

Lemma goes_out_frame env kind poll_data c : goes_out env (frame kind poll_data) c = false.
Proof. reflexivity. Qed.

Lemma attempts_frame env kind poll_data conns : attempts env (frame kind poll_data) conns = [].
Proof. reflexivity. Qed.

Lemma filter_none {A} (f : A → bool) l : (∀ x, f x = false) → List.filter f l = [].
Proof. intros Hf. induction l as [|a l IH]; simpl; [done|]. by rewrite Hf. Qed.

Lemma send_each_run env data conns disconnected w :
  send_each env data conns disconnected w
  = (mkWorld (db w) (manager w) (wire w ++ attempts env data conns),
     inr (disconnected ++ List.filter (fun c => negb (goes_out env data c)) conns)).
Proof.
  unfold attempts, goes_out.
  revert disconnected w. induction conns as [|c conns IH]; intros d w; simpl.
  - unfold ret. destruct (json_encodable data); rewrite !app_nil_r; by destruct w.
  - unfold bind at 1. unfold try_except, bind, json_dumps, send_text, raise, ret.
    unfold attempt_of at 1.
    destruct (json_encodable data) eqn:Hd; simpl.
    + destruct (send_ok env c) eqn:Hc; simpl; rewrite IH; simpl;
        rewrite <- !app_assoc; done.
    + rewrite IH. simpl. by rewrite <- !app_assoc.
Qed.

Lemma remove_each_run pid disconnected w l l' :
  poll_subscribers (manager w) !! pid = Some l →
  remove_all disconnected l = Some l' →
  remove_each pid disconnected w
  = (mkWorld (db w)
       (mkManager (active_connections (manager w))
          (<[pid := l']> (poll_subscribers (manager w))))
       (wire w), inr tt).
Proof.
  revert w l. induction disconnected as [|c d IH]; intros w l Hl Hrem; simpl in *.
  - inversion Hrem; subst. rewrite insert_id by done.
    destruct w as [s [a m] t]. done.
  - destruct (list_remove c l) as [l1|] eqn:Hc; [|done].
    unfold_handler. rewrite Hl, Hc. simpl.
    erewrite IH; [| simpl; apply lookup_insert_eq | exact Hrem].
    simpl. by rewrite insert_insert_eq.
Qed.

Lemma broadcast_poll_update_run env pid data w :
  broadcast_poll_update env pid data w = (after_broadcast env pid data w, inr tt).
Proof.
  unfold broadcast_poll_update, after_broadcast, bind, get_manager.
  destruct (poll_subscribers (manager w) !! pid) as [conns|] eqn:Hs; [|done].
  rewrite send_each_run. simpl.
  erewrite remove_each_run; [done | exact Hs |].
  apply (remove_all_failed (goes_out env data) []). constructor.
Qed.

(** ** The vote ledger *)

Lemma unique_by_In {A} (key : A → Z) seen l x : In x (unique_by key seen l) → In x l.
Proof.
  revert seen. induction l as [|a l IH]; simpl; intros seen; [done|].
  destruct (existsb (Z.eqb (key a)) seen).
  - intros H. right. by eapply IH.
  - intros [->|H]; [by left | right; by eapply IH].
Qed.

Lemma query_user_Some s uid u : query_user s uid = Some u → In u (users s) ∧ user_id u = uid.
Proof. intros H. apply find_some in H as [? ?]. split; [done | lia]. Qed.

Lemma query_poll_Some s pid p : query_poll s pid = Some p → In p (polls s) ∧ poll_id p = pid.
Proof. intros H. apply find_some in H as [? ?]. split; [done | lia]. Qed.

Lemma query_poll_option_Some s oid o :
  query_poll_option s oid = Some o → In o (poll_options s) ∧ option_id o = oid.
Proof. intros H. apply find_some in H as [? ?]. split; [done | lia]. Qed.

Lemma own_option_listed s o poll :
  In o (poll_options s) → query_poll s (option_poll_id o) = Some poll →
  In (option_id o) (map option_id (Poll_options s poll)).
Proof.
  intros Ho Hp. apply query_poll_Some in Hp as [_ Hp].
  apply in_map, filter_In. split; [done | lia].
Qed.

(** Past the scan, the guard [poll_option not in user.voted_options] holds. *)
Lemma not_voted_after_scan s uid user o poll :
  query_user s uid = Some user →
  In o (poll_options s) →
  query_poll s (option_poll_id o) = Some poll →
  prior_vote_in_poll s uid poll = false →
  existsb (fun o' => option_id o' =? option_id o) (User_voted_options s user) = false.
Proof.
  intros Hu Ho Hp Hscan.
  destruct (existsb _ (User_voted_options s user)) eqn:Hex; [|done].
  apply existsb_exists in Hex as (o' & Hin & Heq).
  apply unique_by_In, in_flat_map in Hin as (v & Hv & Ho').
  apply filter_In in Hv as [Hv Hvu]. apply filter_In in Ho' as [_ Hvo].
  apply query_user_Some in Hu as [_ Hu].
  assert (prior_vote_in_poll s uid poll = true) as Hc; [|congruence].
  apply existsb_exists. exists v. split.
  - apply filter_In. split; [done | lia].
  - apply existsb_exists. exists (option_id o). split.
    + by apply own_option_listed.
    + lia.
Qed.

(** [cast_vote] path by path. *)
Lemma cast_vote_run env vote uid w :
  cast_vote env vote uid w =
  match query_user (db w) uid with
  | None => (w, inl (HTTPException 404 "User not found"))
  | Some _ =>
      match query_poll_option (db w) (vc_poll_option_id vote) with
      | None => (w, inl (HTTPException 404 "Poll option not found"))
      | Some o =>
          match query_poll (db w) (option_poll_id o) with
          | None => (w, inl AttributeError)
          | Some poll =>
              if prior_vote_in_poll (db w) uid poll
              then (w, inl (HTTPException 400 already_voted_detail))
              else vote_accepted env uid o poll w
          end
      end
  end.
Proof.
  unfold cast_vote, PollOption_poll; unfold_handler.
  destruct (query_user (db w) uid) as [user|] eqn:Hu; [|done].
  destruct (query_poll_option (db w) (vc_poll_option_id vote)) as [o|] eqn:Ho; [|done].
  destruct (query_poll (db w) (option_poll_id o)) as [poll|] eqn:Hp; [|done].
  fold (prior_vote_in_poll (db w) uid poll).
  destruct (prior_vote_in_poll (db w) uid poll) eqn:Hscan; [done|].
  pose proof Ho as [Hoin Hoid]%query_poll_option_Some.
  rewrite (not_voted_after_scan _ _ _ _ _ Hu Hoin Hp Hscan).
  pose proof Hu as [_ Huid]%query_user_Some.
  unfold get_poll_with_votes; unfold_handler. simpl.
  unfold query_poll in *. simpl. rewrite Hp.
  rewrite broadcast_poll_update_run.
  unfold vote_accepted. by rewrite Huid, Hoid.
Qed.

Lemma after_broadcast_db env pid data w : db (after_broadcast env pid data w) = db w.
Proof. unfold after_broadcast. by destruct (poll_subscribers (manager w) !! pid). Qed.

Lemma after_broadcast_wire env pid data w :
  wire (after_broadcast env pid data w)
  = wire w ++ attempts env data (subscribers (manager w) pid).
Proof.
  unfold after_broadcast, subscribers.
  destruct (poll_subscribers (manager w) !! pid); simpl; [done|].
  unfold attempts. destruct (json_encodable data); simpl; by rewrite app_nil_r.
Qed.

Lemma after_broadcast_subscribers env pid data w q :
  subscribers (manager (after_broadcast env pid data w)) q
  = if decide (pid = q)
    then List.filter (goes_out env data) (subscribers (manager w) q)
    else subscribers (manager w) q.
Proof.
  unfold after_broadcast, subscribers.
  destruct (poll_subscribers (manager w) !! pid) as [conns|] eqn:Hs; simpl.
  - rewrite lookup_insert. case_decide; subst; [by rewrite Hs | done].
  - case_decide; subst; [by rewrite Hs | done].
Qed.

(** The broadcast of a frame: nothing is sent, and the list of the poll
    is left empty. *)
Lemma after_broadcast_frame_wire env pid kind poll_data w :
  wire (after_broadcast env pid (frame kind poll_data) w) = wire w.
Proof. by rewrite after_broadcast_wire, attempts_frame, app_nil_r. Qed.

Lemma after_broadcast_frame_subscribers env pid kind poll_data w q :
  subscribers (manager (after_broadcast env pid (frame kind poll_data) w)) q
  = if decide (pid = q) then [] else subscribers (manager w) q.
Proof.
  rewrite after_broadcast_subscribers. case_decide; [|done].
  apply filter_none. intros c. apply goes_out_frame.
Qed.

(** A rejected vote leaves the whole server state as it was. *)
Lemma cast_vote_rejected_unchanged env vote uid w w' e :
  cast_vote env vote uid w = (w', inl e) → w' = w.
Proof.
  rewrite cast_vote_run.
  destruct (query_user (db w) uid); [|by intros [= <- _]].
  destruct (query_poll_option (db w) (vc_poll_option_id vote)) as [o|]; [|by intros [= <- _]].
  destruct (query_poll (db w) (option_poll_id o)) as [poll|]; [|by intros [= <- _]].
  destruct (prior_vote_in_poll (db w) uid poll); [by intros [= <- _]|].
  unfold vote_accepted. intros H. discriminate H.
Qed.

(** An accepted vote went down the last path of [cast_vote_run]. *)
Lemma cast_vote_accepted_inv env vote uid w w' r :
  cast_vote env vote uid w = (w', inr r) →
  ∃ user o poll,
    query_user (db w) uid = Some user ∧
    query_poll_option (db w) (vc_poll_option_id vote) = Some o ∧
    query_poll (db w) (option_poll_id o) = Some poll ∧
    prior_vote_in_poll (db w) uid poll = false ∧
    vote_accepted env uid o poll w = (w', inr r).
Proof.
  rewrite cast_vote_run.
  destruct (query_user (db w) uid) as [user|] eqn:Hu; [|done].
  destruct (query_poll_option (db w) (vc_poll_option_id vote)) as [o|] eqn:Ho; [|done].
  destruct (query_poll (db w) (option_poll_id o)) as [poll|] eqn:Hp; [|done].
  destruct (prior_vote_in_poll (db w) uid poll) eqn:Hscan; [done|].
  intros H. exists user, o, poll. repeat split; assumption || reflexivity.
Qed.

(** Any vote the user holds on an option of the poll makes the scan fire. *)
Lemma scan_finds_prior_vote s uid oid' poll :
  stored_votes s uid oid' ≠ [] →
  option_of_poll s oid' (poll_id poll) = true →
  prior_vote_in_poll s uid poll = true.
Proof.
  intros Hv Ho.
  destruct (stored_votes s uid oid') as [|v vs] eqn:Hs; [done|].
  assert (In v (stored_votes s uid oid')) as Hin by (rewrite Hs; by left).
  apply filter_In in Hin as [Hin Hb]. apply andb_true_iff in Hb as [Hb1 Hb2].
  apply existsb_exists in Ho as (o' & Ho' & Hb). apply andb_true_iff in Hb as [Hb3 Hb4].
  apply existsb_exists. exists v. split.
  - apply filter_In. by split.
  - apply existsb_exists. exists (option_id o'). split; [|lia].
    apply in_map, filter_In. split; [done | lia].
Qed.

Lemma prior_vote_rejected env w uid oid oid' user o poll :
  query_user (db w) uid = Some user →
  query_poll_option (db w) oid = Some o →
  query_poll (db w) (option_poll_id o) = Some poll →
  option_of_poll (db w) oid' (poll_id poll) = true →
  stored_votes (db w) uid oid' ≠ [] →
  cast_vote env (mkVoteCreate oid) uid w
  = (w, inl (HTTPException 400 already_voted_detail)).
Proof.
  intros Hu Ho Hp Hopt Hv. rewrite cast_vote_run. simpl. rewrite Hu, Ho, Hp.
  by rewrite (scan_finds_prior_vote _ _ _ _ Hv Hopt).
Qed.

(** ** Keys of a store that satisfies its schema *)

Lemma find_In_Some {A} (f : A → bool) l x :
  In x l → f x = true → ∃ y, List.find f l = Some y.
Proof.
  intros Hin Hf. destruct (List.find f l) as [y|] eqn:Hfind; [by exists y|].
  by rewrite (find_none _ _ Hfind _ Hin) in Hf.
Qed.


Lemma poll_of_id s pid :
  In pid (map poll_id (polls s)) → ∃ p, query_poll s pid = Some p.
Proof.
  intros (p & <- & Hin)%in_map_iff. apply (find_In_Some _ _ p); [done | lia].
Qed.


Lemma option_of_poll_intro s o :
  In o (poll_options s) → option_of_poll s (option_id o) (option_poll_id o) = true.
Proof.
  intros Hin. apply existsb_exists. exists o. split; [done|].
  apply andb_true_iff. split; lia.
Qed.

Lemma sorted_lt_NoDup ids : StronglySorted Z.lt ids → NoDup ids.
Proof.
  induction 1 as [|a l Hs IH Hall]; constructor; [|done].
  rewrite list_elem_of_In. intros Hin. rewrite Forall_forall in Hall.
  apply list_elem_of_In, Hall in Hin. lia.
Qed.

(** Two rows with one key are one row. *)
Lemma key_determines_row {A} (key : A → Z) (l : list A) x y :
  NoDup (map key l) → In x l → In y l → key x = key y → x = y.
Proof.
  induction l as [|a l IH]; simpl; [done|].
  intros Hnd [->|Hx] [->|Hy] Hk; inversion Hnd as [|? ? Hnotin Hnd']; subst.
  - done.
  - exfalso. apply Hnotin. rewrite Hk. by apply list_elem_of_In, in_map.
  - exfalso. apply Hnotin. rewrite <- Hk. by apply list_elem_of_In, in_map.
  - by apply IH.
Qed.


(** ** What each request does to the store *)

Lemma insert_user_run env user s :
  insert_user (now env) (uc_name user) (uc_email user)
    (hash_password env (uc_password user)) s
  = if user_fits env user
    then Some (append_user (now env) (uc_name user) (uc_email user)
                 (hash_password env (uc_password user)) s)
    else None.
Proof. done. Qed.

(** The flush of the options of a request: all of them, or none. *)
Lemma add_options_run env pid opts s :
  add_options env pid opts s
  = if options_fit opts then Some (append_options env pid opts s) else None.
Proof.
  unfold add_options, append_options, options_fit.
  revert s. induction opts as [|o opts IH]; intros s; simpl; [done|].
  unfold insert_poll_option at 2. destruct (fits 500 (oc_text o)); simpl; [apply IH|].
  clear IH. induction opts as [|o' opts IH]; simpl; [done | apply IH].
Qed.

(** [create_user] path by path. *)
Lemma create_user_run env user w :
  create_user env user w
  = match query_user_by_email (db w) (uc_email user) with
    | Some _ => (w, inl (HTTPException 400 "Email already registered"))
    | None =>
        if user_fits env user
        then (mkWorld (snd (append_user (now env) (uc_name user) (uc_email user)
                              (hash_password env (uc_password user)) (db w)))
                (manager w) (wire w),
              inr (mkUserResponse (users_id_seq (db w)) (uc_name user) (uc_email user)
                     (now env)))
        else (mkWorld (skip_users_id (seq_lost env) (db w)) (manager w) (wire w),
              inl DataError)
    end.
Proof.
  unfold create_user; unfold_handler.
  destruct (query_user_by_email (db w) (uc_email user)); [done|].
  rewrite insert_user_run. by destruct (user_fits env user).
Qed.

(** [create_poll] path by path. *)
Lemma create_poll_run env req creator w :
  create_poll env req creator w
  = match query_user (db w) creator with
    | Some _ =>
        let s1 := snd (insert_poll (now env) (pc_question req) (pc_is_published req)
                         creator (db w)) in
        if options_fit (pc_options req)
        then get_poll_with_votes (polls_id_seq (db w))
               (mkWorld (append_options env (polls_id_seq (db w)) (pc_options req) s1)
                  (manager w) (wire w))
        else (mkWorld (skip_poll_options_id (seq_lost env) s1) (manager w) (wire w),
              inl DataError)
    | None => (w, inl (HTTPException 404 "Creator not found"))
    end.
Proof.
  unfold create_poll; unfold_handler.
  destruct (query_user (db w) creator); [|done]. simpl.
  rewrite add_options_run. by destruct (options_fit (pc_options req)).
Qed.

Lemma create_user_db env user w :
  db (fst (create_user env user w)) = db w ∨
  db (fst (create_user env user w))
  = snd (append_user (now env) (uc_name user) (uc_email user)
           (hash_password env (uc_password user)) (db w)) ∨
  db (fst (create_user env user w)) = skip_users_id (seq_lost env) (db w).
Proof.
  rewrite create_user_run.
  destruct (query_user_by_email (db w) (uc_email user)); [by left|].
  destruct (user_fits env user); right; [by left | by right].
Qed.

Lemma create_poll_db env poll creator_id w :
  db (fst (create_poll env poll creator_id w)) = db w ∨
  (is_Some (query_user (db w) creator_id) ∧
   db (fst (create_poll env poll creator_id w))
   = append_options env (polls_id_seq (db w)) (pc_options poll)
       (snd (insert_poll (now env) (pc_question poll) (pc_is_published poll)
               creator_id (db w)))) ∨
  (is_Some (query_user (db w) creator_id) ∧
   db (fst (create_poll env poll creator_id w))
   = skip_poll_options_id (seq_lost env)
       (snd (insert_poll (now env) (pc_question poll) (pc_is_published poll)
               creator_id (db w)))).
Proof.
  rewrite create_poll_run.
  destruct (query_user (db w) creator_id) as [creator|]; [|by left].
  right. simpl. destruct (options_fit (pc_options poll)); [left | by right].
  split; [done|].
  unfold get_poll_with_votes; unfold_handler. simpl.
  by destruct (query_poll _ _).
Qed.

Lemma get_poll_with_votes_world pid w : fst (get_poll_with_votes pid w) = w.
Proof.
  unfold get_poll_with_votes; unfold_handler.
  by destruct (query_poll (db w) pid).
Qed.

Lemma cast_vote_db env vote uid w :
  db (fst (cast_vote env vote uid w)) = db w ∨
  ∃ user o poll,
    query_user (db w) uid = Some user ∧
    query_poll_option (db w) (vc_poll_option_id vote) = Some o ∧
    query_poll (db w) (option_poll_id o) = Some poll ∧
    prior_vote_in_poll (db w) uid poll = false ∧
    db (fst (cast_vote env vote uid w)) = insert_vote (now env) uid (option_id o) (db w).
Proof.
  destruct (cast_vote env vote uid w) as [w' [e|r]] eqn:Hc.
  - left. by rewrite (cast_vote_rejected_unchanged _ _ _ _ _ _ Hc).
  - right. apply cast_vote_accepted_inv in Hc as (user & o & poll & Hu & Ho & Hp & Hs & Hacc).
    exists user, o, poll. repeat split; try assumption.
    unfold vote_accepted in Hacc. inversion Hacc. simpl. apply after_broadcast_db.
Qed.

Lemma connect_db c w : db (fst (connect c w)) = db w.
Proof. done. Qed.

Lemma disconnect_db c w : db (fst (disconnect c w)) = db w.
Proof. done. Qed.

Lemma subscribe_to_poll_db pid c w : db (fst (subscribe_to_poll pid c w)) = db w.
Proof. done. Qed.

Lemma websocket_endpoint_db env c pid w : db (fst (websocket_endpoint env c pid w)) = db w.
Proof.
  unfold websocket_endpoint, connect, subscribe_to_poll, get_poll_with_votes,
    json_dumps, disconnect; unfold_handler. simpl.
  by destruct (query_poll (db w) pid).
Qed.

(** ** The schema is kept *)

Lemma serial_ok_snoc ids n : serial_ok ids n → serial_ok (ids ++ [n]) (n + 1).
Proof.
  intros [Hs Hb]. split.
  - induction Hs as [|a l Hs IH Hall]; simpl.
    + repeat constructor.
    + inversion Hb; subst. constructor; [by apply IH|].
      apply Forall_app. split; [done | repeat constructor; lia].
  - apply Forall_app. split; [|repeat constructor; lia].
    eapply Forall_impl; [exact Hb | simpl; intros; lia].
Qed.

Lemma schema_ok_empty : schema_ok empty_store.
Proof. split; simpl; try done; split; constructor. Qed.

Lemma schema_ok_append_user t name email pw s :
  schema_ok s → schema_ok (snd (append_user t name email pw s)).
Proof.
  intros [Hu Hp Ho Hvu Hvo Hop]. split; simpl; try done.
  - rewrite map_app. by apply serial_ok_snoc.
  - intros v Hv. rewrite map_app. apply in_or_app. left. by apply Hvu.
Qed.

Lemma schema_ok_insert_poll t q pub creator s :
  schema_ok s → schema_ok (snd (insert_poll t q pub creator s)).
Proof.
  intros [Hu Hp Ho Hvu Hvo Hop]. split; simpl; try done.
  - rewrite map_app. by apply serial_ok_snoc.
  - intros o Hin. rewrite map_app. apply in_or_app. left. by apply Hop.
Qed.

Lemma schema_ok_append_poll_option t text pid s :
  In pid (map poll_id (polls s)) →
  schema_ok s → schema_ok (append_poll_option t text pid s).
Proof.
  intros Hpid [Hu Hp Ho Hvu Hvo Hop]. split; simpl; try done.
  - rewrite map_app. by apply serial_ok_snoc.
  - intros v Hv. rewrite map_app. apply in_or_app. left. by apply Hvo.
  - intros o [Hin|[<-|[]]]%in_app_or; [by apply Hop | done].
Qed.

Lemma append_options_polls env pid opts s : polls (append_options env pid opts s) = polls s.
Proof. revert s. induction opts as [|a opts IH]; intros s; simpl; [done|]. by rewrite IH. Qed.

Lemma schema_ok_append_options env pid opts s :
  In pid (map poll_id (polls s)) →
  schema_ok s → schema_ok (append_options env pid opts s).
Proof.
  revert s. induction opts as [|a opts IH]; intros s Hpid Hs; simpl; [done|].
  apply IH; [done | by apply schema_ok_append_poll_option].
Qed.

Lemma schema_ok_insert_vote t uid oid s :
  In uid (map user_id (users s)) →
  In oid (map option_id (poll_options s)) →
  schema_ok s → schema_ok (insert_vote t uid oid s).
Proof.
  intros Huid Hoid [Hu Hp Ho Hvu Hvo Hop]. split; simpl; try done.
  - intros v [Hin|[<-|[]]]%in_app_or; [by apply Hvu | done].
  - intros v [Hin|[<-|[]]]%in_app_or; [by apply Hvo | done].
Qed.

Lemma serial_ok_skip ids next n : serial_ok ids next → serial_ok ids (next + Z.of_nat n).
Proof.
  intros [Hs Hb]. split; [done|].
  eapply Forall_impl; [exact Hb | simpl; intros; lia].
Qed.

Lemma schema_ok_skip_users_id n s : schema_ok s → schema_ok (skip_users_id n s).
Proof.
  intros [Hu Hp Ho Hvu Hvo Hop]. split; simpl; try done. by apply serial_ok_skip.
Qed.

Lemma schema_ok_skip_poll_options_id n s :
  schema_ok s → schema_ok (skip_poll_options_id n s).
Proof.
  intros [Hu Hp Ho Hvu Hvo Hop]. split; simpl; try done. by apply serial_ok_skip.
Qed.

Lemma schema_ok_step op w : schema_ok (db w) → schema_ok (db (step op w)).
Proof.
  intros Hs. destruct op as [env user|env poll creator|pid|env vote uid|pid c|c|env c pid]; simpl.
  - destruct (create_user_db env user w) as [->|[->| ->]]; [done| |].
    + by apply schema_ok_append_user.
    + by apply schema_ok_skip_users_id.
  - destruct (create_poll_db env poll creator w) as [->|[[_ ->]|[_ ->]]]; [done| |].
    + apply schema_ok_append_options.
      * simpl. rewrite map_app. apply in_or_app. right. by left.
      * by apply schema_ok_insert_poll.
    + by apply schema_ok_skip_poll_options_id, schema_ok_insert_poll.
  - by rewrite get_poll_with_votes_world.
  - destruct (cast_vote_db env vote uid w)
      as [->|(user & o & poll & Hu & Ho & Hp & _ & ->)]; [done|].
    apply query_user_Some in Hu as [Hu <-].
    apply query_poll_option_Some in Ho as [Ho _].
    apply schema_ok_insert_vote; [by apply in_map | by apply in_map | done].
  - done.
  - done.
  - by rewrite websocket_endpoint_db.
Qed.

Lemma schema_ok_run ops w : schema_ok (db w) → schema_ok (db (run ops w)).
Proof.
  revert w. induction ops as [|op ops IH]; intros w Hs; simpl; [done|].
  by apply IH, schema_ok_step.
Qed.

(** ** One vote per user and poll *)

Lemma votes_in_poll_ext s s' uid pid :
  votes s' = votes s → poll_options s' = poll_options s →
  votes_in_poll s' uid pid = votes_in_poll s uid pid.
Proof. unfold votes_in_poll, option_of_poll. by intros -> ->. Qed.

(** A new option gets an id no stored vote can name. *)
Lemma votes_in_poll_append_poll_option t text p s uid pid :
  schema_ok s →
  votes_in_poll (append_poll_option t text p s) uid pid = votes_in_poll s uid pid.
Proof.
  intros Hs. unfold votes_in_poll. simpl. apply filter_ext_in. intros v Hv.
  f_equal. unfold option_of_poll. simpl. rewrite existsb_app. simpl.
  destruct (poll_options_pk s Hs) as [_ Hlt]. rewrite Forall_forall in Hlt.
  apply (votes_option_fk s Hs), list_elem_of_In, Hlt in Hv.
  replace (poll_options_id_seq s =? vote_poll_option_id v) with false by lia.
  simpl. by rewrite orb_false_r.
Qed.

Lemma I1_append_options env p opts s :
  In p (map poll_id (polls s)) → schema_ok s → I1 s → I1 (append_options env p opts s).
Proof.
  revert s. induction opts as [|a opts IH]; intros s Hp Hs Hi; simpl; [done|].
  apply IH; [done | by apply schema_ok_append_poll_option |].
  intros uid pid. by rewrite votes_in_poll_append_poll_option.
Qed.

(** When the scan of [cast_vote] finds nothing, the user has no vote in
    the poll. *)
Lemma scan_clear_no_votes s uid poll :
  prior_vote_in_poll s uid poll = false → votes_in_poll s uid (poll_id poll) = [].
Proof.
  intros Hscan.
  destruct (votes_in_poll s uid (poll_id poll)) as [|v vs] eqn:Hv; [done|].
  assert (In v (votes_in_poll s uid (poll_id poll))) as Hin by (rewrite Hv; by left).
  apply filter_In in Hin as [Hin Hb]. apply andb_true_iff in Hb as [Hb1 Hb2].
  apply existsb_exists in Hb2 as (o & Ho & Hb). apply andb_true_iff in Hb as [Hb3 Hb4].
  assert (prior_vote_in_poll s uid poll = true) as Hc; [|congruence].
  apply existsb_exists. exists v. split.
  - apply filter_In. by split.
  - apply existsb_exists. exists (option_id o). split; [|lia].
    apply in_map, filter_In. split; [done | lia].
Qed.

Lemma I1_insert_vote t s uid user o poll :
  schema_ok s →
  query_user s uid = Some user →
  In o (poll_options s) →
  query_poll s (option_poll_id o) = Some poll →
  prior_vote_in_poll s uid poll = false →
  I1 s → I1 (insert_vote t uid (option_id o) s).
Proof.
  intros Hs Hu Ho Hp Hscan Hi u pid. unfold votes_in_poll. simpl.
  rewrite List.filter_app, length_app. simpl.
  change (List.filter _ (votes s)) with (votes_in_poll s u pid).
  change (option_of_poll (insert_vote t uid (option_id o) s))
    with (option_of_poll s).
  destruct (uid =? u) eqn:Hu'; simpl; [|specialize (Hi u pid); simpl; lia].
  destruct (option_of_poll s (option_id o) pid) eqn:Hopt; simpl;
    [|specialize (Hi u pid); simpl; lia].
  apply existsb_exists in Hopt as (o' & Ho' & Hb). apply andb_true_iff in Hb as [Hb1 Hb2].
  assert (o' = o) as ->.
  { apply (key_determines_row option_id (poll_options s)); [|done|done|lia].
    apply sorted_lt_NoDup, (poll_options_pk s Hs). }
  apply query_poll_Some in Hp as [_ Hp].
  assert (u = uid) as -> by lia. assert (pid = poll_id poll) as -> by lia.
  by rewrite (scan_clear_no_votes _ _ _ Hscan).
Qed.

Lemma I1_step op w : schema_ok (db w) → I1 (db w) → I1 (db (step op w)).
Proof.
  intros Hs Hi. destruct op as [env user|env poll creator|pid|env vote uid|pid c|c|env c pid]; simpl.
  - destruct (create_user_db env user w) as [->|[->| ->]]; [done| |];
      intros u p; rewrite (votes_in_poll_ext (db w)) by done; apply Hi.
  - destruct (create_poll_db env poll creator w) as [->|[[_ ->]|[_ ->]]]; [done| |].
    + apply I1_append_options.
      * simpl. rewrite map_app. apply in_or_app. right. by left.
      * by apply schema_ok_insert_poll.
      * intros u p. rewrite (votes_in_poll_ext (db w)) by done. apply Hi.
    + intros u p. rewrite (votes_in_poll_ext (db w)) by done. apply Hi.
  - by rewrite get_poll_with_votes_world.
  - destruct (cast_vote_db env vote uid w)
      as [->|(user & o & poll & Hu & Ho & Hp & Hscan & ->)]; [done|].
    apply query_poll_option_Some in Ho as [Ho _].
    by eapply I1_insert_vote.
  - done.
  - done.
  - by rewrite websocket_endpoint_db.
Qed.

(** ** Claims about [cast_vote] *)



(** C3: if the user already holds a vote for another option of the same
    poll, [cast_vote] fails with 400 "User has already voted for this
    poll" (DuplicateVote) and the state is the one before the call. *)
Theorem vote_other_option_rejected env w uid oid oid' user o poll :
  query_user (db w) uid = Some user →
  query_poll_option (db w) oid = Some o →
  query_poll (db w) (option_poll_id o) = Some poll →
  option_of_poll (db w) oid' (poll_id poll) = true →
  oid' ≠ oid →
  stored_votes (db w) uid oid' ≠ [] →
  cast_vote env (mkVoteCreate oid) uid w
  = (w, inl (HTTPException 400 already_voted_detail)).
Proof. intros Hu Ho Hp Hopt _ Hv. by eapply prior_vote_rejected. Qed.

(** Ann, who voted "yes" on poll 1, votes "no" on it. *)
Lemma vote_other_option_rejected_witness :
  query_user (db voted_world) 1 = Some (mkUser 1 "ann" "ann@x" "pw" 100) ∧
  query_poll_option (db voted_world) 2 = Some (mkPollOption 2 "no" 1 100) ∧
  query_poll (db voted_world) 1 = Some (mkPoll 1 "tea?" true 100 100 1) ∧
  option_of_poll (db voted_world) 1 1 = true ∧
  1 ≠ 2 ∧
  stored_votes (db voted_world) 1 1 ≠ [] ∧
  cast_vote env0 (mkVoteCreate 2) 1 voted_world
  = (voted_world, inl (HTTPException 400 already_voted_detail)).
Proof.
  assert (stored_votes (db voted_world) 1 1 ≠ []) as Hv by (vm_compute; congruence).
  repeat (split; [vm_compute; congruence|]).
  apply (vote_other_option_rejected env0 voted_world 1 2 1
           (mkUser 1 "ann" "ann@x" "pw" 100) (mkPollOption 2 "no" 1 100)
           (mkPoll 1 "tea?" true 100 100 1));
    solve [exact Hv | vm_compute; congruence].
Defined.


(** C10: a [cast_vote] call that fails sends nothing: the trace of send
    attempts, and so the frames delivered, are those from before the call,
    and the subscriber registry is untouched. *)
Theorem rejected_vote_sends_nothing env vote uid w w' e :
  cast_vote env vote uid w = (w', inl e) →
  wire w' = wire w ∧ delivered (wire w') = delivered (wire w) ∧ manager w' = manager w.
Proof. intros H. by rewrite (cast_vote_rejected_unchanged _ _ _ _ _ _ H). Qed.

(** A vote for an option that does not exist. *)
Lemma rejected_vote_sends_nothing_witness :
  cast_vote env0 (mkVoteCreate 9) 1 voted_world
  = (voted_world, inl (HTTPException 404 "Poll option not found")) ∧
  wire voted_world = wire voted_world ∧
  delivered (wire voted_world) = delivered (wire voted_world) ∧
  manager voted_world = manager voted_world.
Proof.
  assert (cast_vote env0 (mkVoteCreate 9) 1 voted_world
          = (voted_world, inl (HTTPException 404 "Poll option not found"))) as H
    by (vm_compute; reflexivity).
  split; [exact H|].
  exact (rejected_vote_sends_nothing env0 (mkVoteCreate 9) 1 voted_world voted_world _ H).
Defined.

(** C9, as stated, fails.  The response of a successful vote carries the
    reading of the application clock (200), not the timestamp stored with
    the vote (100); and it has no poll id: the votes cast in [world_a] and
    [world_b] get the same response although option 1 belongs to poll 1 in
    the former and to poll 2 in the latter. *)
Lemma vote_response_counterexample :
  snd (cast_vote env0 (mkVoteCreate 1) 1 world_a) = inr (mkVoteResponse 1 1 200) ∧
  votes (db (fst (cast_vote env0 (mkVoteCreate 1) 1 world_a))) = [mkVote 1 1 1 100] ∧
  snd (cast_vote env0 (mkVoteCreate 1) 1 world_b)
  = snd (cast_vote env0 (mkVoteCreate 1) 1 world_a) ∧
  option_poll_id <$> query_poll_option (db world_a) 1 = Some 1 ∧
  option_poll_id <$> query_poll_option (db world_b) 1 = Some 2.
Proof. repeat split; by vm_compute. Qed.

(** C9 (amended): the value returned by a successful [cast_vote] holds the
    user id, the voted option id and the application clock's reading
    [utcnow]; the vote it stored is the single vote fact of that user for
    that option and carries the database clock's reading [now]. *)
Theorem vote_response_fields env vote uid w w' r :
  cast_vote env vote uid w = (w', inr r) →
  r = mkVoteResponse uid (vc_poll_option_id vote) (utcnow env) ∧
  stored_votes (db w') uid (vc_poll_option_id vote)
  = [mkVote (votes_id_seq (db w)) uid (vc_poll_option_id vote) (now env)].
Proof.
  intros (user & o & poll & Hu & Ho & Hp & Hscan & Hacc)%cast_vote_accepted_inv.
  pose proof Ho as [Hoin Hoid]%query_poll_option_Some.
  pose proof Hp as [_ Hpid]%query_poll_Some.
  unfold vote_accepted in Hacc. inversion Hacc as [[Hw Hr]]. rewrite Hoid.
  split; [done|]. rewrite after_broadcast_db. unfold stored_votes. simpl.
  rewrite List.filter_app. simpl. rewrite !Z.eqb_refl. simpl.
  change (List.filter _ (votes (db w)))
    with (stored_votes (db w) uid (vc_poll_option_id vote)).
  destruct (stored_votes (db w) uid (vc_poll_option_id vote)) as [|v vs] eqn:Hv; [done|].
  assert (prior_vote_in_poll (db w) uid poll = true) as Hc; [|congruence].
  apply (scan_finds_prior_vote _ _ (vc_poll_option_id vote)); [by rewrite Hv|].
  rewrite Hpid, <- Hoid. by apply option_of_poll_intro.
Qed.

(** Ann's first vote: answered at application time 200, stored at
    database time 100. *)
Lemma vote_response_fields_witness :
  cast_vote env0 (mkVoteCreate 1) 1 demo_world = (voted_world, inr (mkVoteResponse 1 1 200)) ∧
  mkVoteResponse 1 1 200 = mkVoteResponse 1 1 (utcnow env0) ∧
  stored_votes (db voted_world) 1 1 = [mkVote (votes_id_seq (db demo_world)) 1 1 (now env0)].
Proof.
  assert (cast_vote env0 (mkVoteCreate 1) 1 demo_world
          = (voted_world, inr (mkVoteResponse 1 1 200))) as H by (vm_compute; reflexivity).
  split; [exact H|].
  exact (vote_response_fields env0 (mkVoteCreate 1) 1 demo_world voted_world _ H).
Defined.

(** C7, as stated, fails: a vote cast at database time 500 is stored for
    option 1 of poll 1, and the poll's [updated_at] is 100 before and
    after. *)
Lemma vote_updated_at_counterexample :
  snd (cast_vote env_later (mkVoteCreate 1) 1 demo_world) = inr (mkVoteResponse 1 1 600) ∧
  votes (db demo_world) = [] ∧
  votes (db (fst (cast_vote env_later (mkVoteCreate 1) 1 demo_world))) = [mkVote 1 1 1 500] ∧
  poll_updated_at <$> query_poll (db demo_world) 1 = Some 100 ∧
  poll_updated_at <$> query_poll (db (fst (cast_vote env_later (mkVoteCreate 1) 1 demo_world))) 1
  = Some 100.
Proof. repeat split; by vm_compute. Qed.

(** C7 (amended): [cast_vote] writes no poll row: after any call, also one
    that stored a new vote, every poll is found with the fields it had,
    [updated_at] among them. *)
Theorem vote_keeps_poll_rows env vote uid w pid :
  query_poll (db (fst (cast_vote env vote uid w))) pid = query_poll (db w) pid ∧
  poll_updated_at <$> query_poll (db (fst (cast_vote env vote uid w))) pid
  = poll_updated_at <$> query_poll (db w) pid.
Proof.
  assert (query_poll (db (fst (cast_vote env vote uid w))) pid = query_poll (db w) pid) as H.
  { destruct (cast_vote_db env vote uid w) as [->|(? & ? & ? & _ & _ & _ & _ & ->)]; done. }
  by rewrite H.
Qed.

(** Poll 1 around a vote stored at database time 500. *)
Lemma vote_keeps_poll_rows_witness :
  query_poll (db (fst (cast_vote env_later (mkVoteCreate 1) 1 demo_world))) 1
  = query_poll (db demo_world) 1 ∧
  poll_updated_at <$> query_poll (db (fst (cast_vote env_later (mkVoteCreate 1) 1 demo_world))) 1
  = poll_updated_at <$> query_poll (db demo_world) 1.
Proof. exact (vote_keeps_poll_rows env_later (mkVoteCreate 1) 1 demo_world 1). Defined.

(** ** Claims about the broadcaster *)

(** For data the encoder can write, a broadcast is what its two loops
    say: one [send_text] per subscriber, whether or not earlier ones
    failed, nothing raised, and the subscribers whose send failed
    removed. *)
Lemma broadcast_of_encodable env pid data w :
  json_encodable data = true →
  let conns := subscribers (manager w) pid in
  let w' := fst (broadcast_poll_update env pid data w) in
  snd (broadcast_poll_update env pid data w) = inr tt ∧
  wire w' = wire w ++ map (fun c => mkAttempt c data (send_ok env c)) conns ∧
  subscribers (manager w') pid = List.filter (send_ok env) conns ∧
  (∀ q, q ≠ pid → subscribers (manager w') q = subscribers (manager w) q).
Proof.
  intros Hd conns w'. subst conns w'. rewrite broadcast_poll_update_run. simpl.
  split; [done|]. split; [|split].
  - rewrite after_broadcast_wire. unfold attempts. by rewrite Hd.
  - rewrite after_broadcast_subscribers, decide_True by done.
    apply filter_ext. intros c. unfold goes_out. by rewrite Hd.
  - intros q Hq. rewrite after_broadcast_subscribers. by case_decide.
Qed.

(** For a frame of the server, which holds the timestamps of the poll,
    [json.dumps] raises inside the [try] for every subscriber:
    [send_text] is called for nobody and the second loop removes them
    all. *)
Lemma broadcast_of_frame env pid kind poll_data w :
  let w' := fst (broadcast_poll_update env pid (frame kind poll_data) w) in
  snd (broadcast_poll_update env pid (frame kind poll_data) w) = inr tt ∧
  db w' = db w ∧
  wire w' = wire w ∧
  subscribers (manager w') pid = [] ∧
  (∀ q, q ≠ pid → subscribers (manager w') q = subscribers (manager w) q) ∧
  active_connections (manager w') = active_connections (manager w).
Proof.
  intros w'. subst w'. rewrite broadcast_poll_update_run. simpl.
  split; [done|]. split; [apply after_broadcast_db|].
  split; [apply after_broadcast_frame_wire|]. split; [|split].
  - rewrite after_broadcast_frame_subscribers. by rewrite decide_True.
  - intros q Hq. rewrite after_broadcast_frame_subscribers. by case_decide.
  - unfold after_broadcast. by destruct (poll_subscribers (manager w) !! pid).
Qed.

(** C4, at an input where the code does not do what the claim says.  In
    [fanout_world] the sockets 1, 2 and 4 are subscribed to poll 1 and,
    under [env_later], each of them would take a text.  The broadcast of
    the snapshot of poll 1 raises nothing, but it calls [send_text] for
    none of them, and all three are removed from the subscribers of the
    poll; the same happens when Bob's vote for option 2 triggers the
    broadcast, and Bob gets his success. *)
Theorem broadcast_drops_every_observer :
  let data := frame "poll_update" (poll_response (db fanout_world) tea_poll) in
  let w' := fst (broadcast_poll_update env_later 1 data fanout_world) in
  let voted := cast_vote env_later (mkVoteCreate 2) 2 fanout_world in
  subscribers (manager fanout_world) 1 = [1; 2; 4]%nat ∧
  forallb (send_ok env_later) [1; 2; 4]%nat = true ∧
  query_poll (db fanout_world) 1 = Some tea_poll ∧
  snd (broadcast_poll_update env_later 1 data fanout_world) = inr tt ∧
  wire fanout_world = [] ∧ wire w' = [] ∧
  subscribers (manager w') 1 = [] ∧
  snd voted = inr (mkVoteResponse 2 2 600) ∧
  wire (fst voted) = [] ∧
  subscribers (manager (fst voted)) 1 = [].
Proof.
  intros data w' voted. subst data w' voted.
  split; [by vm_compute|]. split; [by vm_compute|]. split; [by vm_compute|].
  split; [by vm_compute|]. split; [by vm_compute|]. split; [by vm_compute|].
  split; [by vm_compute|]. split; [by vm_compute|]. split; by vm_compute.
Qed.

(** ** Claim about invariant I1 *)

Lemma step_keeps_schema_and_I1 op w :
  schema_ok (db w) ∧ I1 (db w) → schema_ok (db (step op w)) ∧ I1 (db (step op w)).
Proof. intros [Hs Hi]. split; [by apply schema_ok_step | by apply I1_step]. Qed.

Lemma I1_empty : I1 empty_store.
Proof. intros uid pid. simpl. lia. Qed.

Lemma schema_and_I1_run ops w :
  schema_ok (db w) → I1 (db w) → schema_ok (db (run ops w)) ∧ I1 (db (run ops w)).
Proof.
  revert w. induction ops as [|op ops IH]; intros w Hs Hi; simpl; [done|].
  destruct (step_keeps_schema_and_I1 op w (conj Hs Hi)) as [Hs' Hi'].
  by apply IH.
Qed.

(** C2: from a store that satisfies its schema and I1, every sequence of
    requests (creating users and polls, building snapshots, casting
    votes, subscribing, disconnecting, opening a websocket) ends in a
    store that satisfies I1: no user holds more than one vote on the
    options of one poll.  So does every sequence run by a server that
    starts with empty tables. *)
Theorem I1_preserved ops w :
  schema_ok (db w) → I1 (db w) →
  I1 (db (run ops w)) ∧ I1 (db (run ops initial_world)).
Proof.
  intros Hs Hi. split.
  - by apply schema_and_I1_run.
  - apply schema_and_I1_run; [apply schema_ok_empty | apply I1_empty].
Qed.

(** I1 does tell stores apart. *)
Example I1_excludes_double_vote : ¬ I1 double_vote_store.
Proof. intros H. specialize (H 1 1). vm_compute in H. lia. Qed.

(** More votes, a subscription and a disconnect after Ann's vote. *)
Lemma I1_preserved_witness :
  schema_ok (db voted_world) ∧ I1 (db voted_world) ∧
  I1 (db (run [OpCastVote env0 (mkVoteCreate 2) 1;
               OpCastVote env0 (mkVoteCreate 3) 1;
               OpSubscribe 9 5%nat; OpDisconnect 1%nat;
               OpBuildSnapshot 1] voted_world)) ∧
  I1 (db (run [OpCastVote env0 (mkVoteCreate 2) 1;
               OpCastVote env0 (mkVoteCreate 3) 1;
               OpSubscribe 9 5%nat; OpDisconnect 1%nat;
               OpBuildSnapshot 1] initial_world)).
Proof.
  assert (schema_ok (db voted_world) ∧ I1 (db voted_world)) as [Hs Hi]
    by (apply schema_and_I1_run; [apply schema_ok_empty | apply I1_empty]).
  split; [exact Hs|]. split; [exact Hi|].
  exact (I1_preserved _ voted_world Hs Hi).
Defined.

(** ** Vote counts *)

Lemma seen_spec (k : Z) seen :
  existsb (Z.eqb k) seen = true ↔ k ∈ (list_to_set seen : gset Z).
Proof.
  rewrite elem_of_list_to_set, list_elem_of_In, existsb_exists. split.
  - intros (x & Hx & Heq). apply Z.eqb_eq in Heq. by subst.
  - intros H. exists k. split; [done | apply Z.eqb_refl].
Qed.

(** The loader's uniquing keeps one object per key not seen before. *)
Lemma unique_by_length {A} (key : A → Z) seen l :
  length (unique_by key seen l)
  = size ((list_to_set (map key l) : gset Z) ∖ list_to_set seen).
Proof.
  revert seen. induction l as [|a l IH]; intros seen; simpl.
  - by rewrite empty_difference_L.
  - destruct (existsb (Z.eqb (key a)) seen) eqn:He.
    + apply seen_spec in He. rewrite IH. f_equal.
      rewrite difference_union_distr_l_L.
      rewrite (subseteq_empty_difference_L {[key a]}) by by apply singleton_subseteq_l.
      by rewrite (left_id_L ∅ (∪)).
    + assert (key a ∉ (list_to_set seen : gset Z)) as Hn.
      { rewrite <- seen_spec. by rewrite He. }
      simpl. rewrite IH. simpl.
      replace (({[key a]} ∪ list_to_set (map key l)) ∖ list_to_set seen : gset Z)
        with ({[key a]} ∪
              (list_to_set (map key l) ∖ ({[key a]} ∪ list_to_set seen)) : gset Z).
      * rewrite (size_union (C:=gset Z) {[key a]}
                   (list_to_set (map key l) ∖ ({[key a]} ∪ list_to_set seen)))
          by (apply disjoint_singleton_l; intros [_ Hk]%elem_of_difference;
              apply Hk, elem_of_union; left; by apply elem_of_singleton).
        by rewrite size_singleton.
      * apply set_eq. intros x. rewrite !elem_of_union, !elem_of_difference, !elem_of_union,
          !elem_of_singleton.
        destruct (decide (x = key a)) as [->|]; [tauto | tauto].
Qed.

(** Joining a vote with 'users' yields the one user it names. *)
Lemma join_user_ids us uid :
  NoDup (map user_id us) → In uid (map user_id us) →
  map user_id (List.filter (fun u => user_id u =? uid) us) = [uid].
Proof.
  induction us as [|u us IH]; simpl; [done|].
  intros Hnd Hin. inversion Hnd as [|? ? Hnotin Hnd']; subst.
  destruct (user_id u =? uid) eqn:He.
  - apply Z.eqb_eq in He. simpl. rewrite He. f_equal.
    assert (List.filter (fun u0 => user_id u0 =? uid) us = []) as ->; [|done].
    destruct (List.filter _ us) as [|x xs] eqn:Hf; [done|]. exfalso.
    assert (In x (List.filter (fun u0 => user_id u0 =? uid) us)) as Hx
      by (rewrite Hf; by left).
    apply filter_In in Hx as [Hx Hxe]. apply Hnotin.
    rewrite He. replace uid with (user_id x) by lia. by apply list_elem_of_In, in_map.
  - destruct Hin as [Heq|Hin]; [lia|]. by apply IH.
Qed.

Lemma join_votes_user_ids us vs :
  NoDup (map user_id us) →
  (∀ v, In v vs → In (vote_user_id v) (map user_id us)) →
  map user_id (flat_map (fun v => List.filter (fun u => user_id u =? vote_user_id v) us) vs)
  = map vote_user_id vs.
Proof.
  intros Hnd. induction vs as [|v vs IH]; simpl; intros Hfk; [done|].
  rewrite map_app, join_user_ids, IH; auto.
Qed.

(** The count a snapshot reports for an option is the number of distinct
    users with a stored vote for it. *)
Lemma voters_count s o :
  schema_ok s →
  length (PollOption_voters s o) = size (distinct_voters s (option_id o)).
Proof.
  intros Hs. unfold PollOption_voters, distinct_voters.
  rewrite unique_by_length, join_votes_user_ids.
  - f_equal. simpl. apply difference_empty_L.
  - apply sorted_lt_NoDup, (users_pk s Hs).
  - intros v [Hv _]%filter_In. by apply (votes_user_fk s Hs).
Qed.

(** Under I1 the uniquing has nothing to remove: the rows of 'votes' for
    an option name pairwise distinct users, so the count is also the
    number of those rows. *)
Lemma option_votes_distinct_users (g : Z → Z → Vote → bool) oid P vs :
  (∀ v, In v vs → vote_poll_option_id v = oid →
        ∀ u, g u P v = (vote_user_id v =? u)) →
  (∀ u, (length (List.filter (g u P) vs) ≤ 1)%nat) →
  NoDup (map vote_user_id (List.filter (fun v => vote_poll_option_id v =? oid) vs)).
Proof.
  induction vs as [|v vs IH]; simpl; intros Hg Hle; [constructor|].
  assert (NoDup (map vote_user_id
                   (List.filter (fun v => vote_poll_option_id v =? oid) vs))) as Hrest.
  { apply IH; [intros; apply Hg; auto|].
    intros u. specialize (Hle u). destruct (g u P v); simpl in Hle; lia. }
  destruct (vote_poll_option_id v =? oid) eqn:Hv; [|done].
  simpl. constructor; [|done].
  rewrite list_elem_of_In, in_map_iff. intros (v' & Hu & [Hin Hv']%filter_In).
  specialize (Hle (vote_user_id v)).
  rewrite (Hg v) in Hle by (auto; lia). rewrite Z.eqb_refl in Hle. simpl in Hle.
  assert (In v' (List.filter (g (vote_user_id v) P) vs)) as Hin'.
  { apply filter_In. split; [done|]. rewrite (Hg v') by (auto; lia). lia. }
  destruct (List.filter (g (vote_user_id v) P) vs); [done | simpl in Hle; lia].
Qed.

Lemma voters_count_rows s o :
  schema_ok s → I1 s → In o (poll_options s) →
  length (PollOption_voters s o)
  = length (List.filter (fun v => vote_poll_option_id v =? option_id o) (votes s)).
Proof.
  intros Hs Hi Ho. rewrite voters_count by done. unfold distinct_voters.
  rewrite size_list_to_set, length_map; [done|].
  apply (option_votes_distinct_users
           (fun u P v => (vote_user_id v =? u) && option_of_poll s (vote_poll_option_id v) P)
           (option_id o) (option_poll_id o)).
  - intros v _ Hv u. by rewrite Hv, option_of_poll_intro, andb_true_r.
  - intros u. apply (Hi u (option_poll_id o)).
Qed.

Lemma find_option_response s oid l :
  List.find (fun r => or_id r =? oid) (map (option_response s) l)
  = option_response s <$> List.find (fun o => option_id o =? oid) l.
Proof.
  induction l as [|o l IH]; simpl; [done|].
  by destruct (option_id o =? oid).
Qed.

Lemma snapshot_count_spec s pid oid :
  schema_ok s →
  snapshot_count s pid oid
  = match query_poll s pid with
    | Some poll =>
        (fun _ => Z.of_nat (size (distinct_voters s oid)))
          <$> List.find (fun o => option_id o =? oid) (Poll_options s poll)
    | None => None
    end.
Proof.
  intros Hs. unfold snapshot_count. destruct (query_poll s pid) as [poll|]; [|done].
  unfold poll_response. simpl. rewrite find_option_response.
  destruct (List.find _ (Poll_options s poll)) as [o|] eqn:Hf; [|done].
  simpl. apply find_some in Hf as [_ Hf]. rewrite voters_count by done.
  do 4 f_equal. lia.
Qed.

(** The store after an accepted vote, and what the scan had established. *)
Lemma cast_vote_accepted_store env vote uid w w' r :
  cast_vote env vote uid w = (w', inr r) →
  db w' = insert_vote (now env) uid (vc_poll_option_id vote) (db w) ∧
  stored_votes (db w) uid (vc_poll_option_id vote) = [].
Proof.
  intros (user & o & poll & Hu & Ho & Hp & Hscan & Hacc)%cast_vote_accepted_inv.
  pose proof Ho as [Hoin Hoid]%query_poll_option_Some.
  pose proof Hp as [_ Hpid]%query_poll_Some.
  unfold vote_accepted in Hacc. inversion Hacc as [[Hw Hr]].
  rewrite after_broadcast_db. simpl. rewrite Hoid. split; [done|].
  destruct (stored_votes (db w) uid (vc_poll_option_id vote)) as [|v vs] eqn:Hv; [done|].
  assert (prior_vote_in_poll (db w) uid poll = true) as Hc; [|congruence].
  apply (scan_finds_prior_vote _ _ (vc_poll_option_id vote)); [by rewrite Hv|].
  rewrite Hpid, <- Hoid. by apply option_of_poll_intro.
Qed.

Lemma stored_votes_insert_vote t uid oid s u :
  stored_votes (insert_vote t uid oid s) u oid
  = stored_votes s u oid
    ++ (if uid =? u then [mkVote (votes_id_seq s) uid oid t] else []).
Proof.
  unfold stored_votes. simpl. rewrite List.filter_app. simpl.
  rewrite Z.eqb_refl, andb_true_r. by destruct (uid =? u).
Qed.

Lemma distinct_voters_insert_vote t uid oid s oid' :
  distinct_voters (insert_vote t uid oid s) oid'
  = if decide (oid = oid') then {[uid]} ∪ distinct_voters s oid'
    else distinct_voters s oid'.
Proof.
  unfold distinct_voters. simpl. rewrite List.filter_app, map_app, list_to_set_app_L. simpl.
  case_decide as Hd.
  - subst. rewrite Z.eqb_refl. simpl. rewrite (right_id_L ∅ (∪)). apply (comm_L (∪)).
  - replace (oid =? oid') with false by lia. simpl. apply (right_id_L ∅ (∪)).
Qed.

Lemma not_yet_voter s uid oid :
  stored_votes s uid oid = [] → uid ∉ distinct_voters s oid.
Proof.
  intros Hnone. unfold distinct_voters.
  rewrite elem_of_list_to_set, list_elem_of_In, in_map_iff.
  intros (v & Hvu & [Hin Hvo]%filter_In).
  assert (In v (stored_votes s uid oid)) as Hc; [|by rewrite Hnone in Hc].
  apply filter_In. split; [done|]. apply andb_true_iff. split; lia.
Qed.

(** One accepted vote: the option's count goes up by one, all other
    counts stay. *)
Lemma cast_vote_counts env oid uid w w' r :
  schema_ok (db w) →
  cast_vote env (mkVoteCreate oid) uid w = (w', inr r) →
  schema_ok (db w') ∧
  (∀ pid, snapshot_count (db w') pid oid = Z.succ <$> snapshot_count (db w) pid oid) ∧
  (∀ pid oid', oid' ≠ oid → snapshot_count (db w') pid oid' = snapshot_count (db w) pid oid').
Proof.
  intros Hs Hc.
  assert (schema_ok (db w')) as Hs'.
  { change w' with (fst (w', @inr exn _ r)). rewrite <- Hc.
    apply (schema_ok_step (OpCastVote env (mkVoteCreate oid) uid) w Hs). }
  destruct (cast_vote_accepted_store _ _ _ _ _ _ Hc) as [Hdb Hnone]. simpl in *.
  split; [done|]. split.
  - intros pid. rewrite !snapshot_count_spec by done. rewrite Hdb.
    change (query_poll (insert_vote (now env) uid oid (db w)) pid)
      with (query_poll (db w) pid).
    destruct (query_poll (db w) pid) as [poll|]; [|done].
    change (Poll_options (insert_vote (now env) uid oid (db w)) poll)
      with (Poll_options (db w) poll).
    destruct (List.find _ (Poll_options (db w) poll)); [|done]. simpl. f_equal.
    rewrite distinct_voters_insert_vote. rewrite decide_True by done.
    rewrite (size_union (C:=gset Z) {[uid]} (distinct_voters (db w) oid)).
    + rewrite size_singleton. lia.
    + apply disjoint_singleton_l. by apply not_yet_voter.
  - intros pid oid' Hne. rewrite !snapshot_count_spec by done. rewrite Hdb.
    change (query_poll (insert_vote (now env) uid oid (db w)) pid)
      with (query_poll (db w) pid).
    destruct (query_poll (db w) pid) as [poll|]; [|done].
    change (Poll_options (insert_vote (now env) uid oid (db w)) poll)
      with (Poll_options (db w) poll).
    rewrite distinct_voters_insert_vote. by rewrite decide_False by done.
Qed.

(** Whoever votes in an accepted run had no vote for the option before it. *)
Lemma cast_votes_fresh env oid uids w w' u :
  cast_votes env oid uids w = Some w' → In u uids → stored_votes (db w) u oid = [].
Proof.
  revert w. induction uids as [|uid uids IH]; intros w Hrun Hin; simpl in *; [done|].
  destruct (cast_vote env (mkVoteCreate oid) uid w) as [w1 [e|r]] eqn:Hc; [done|].
  destruct (cast_vote_accepted_store _ _ _ _ _ _ Hc) as [Hdb Hnone]. simpl in *.
  destruct Hin as [->|Hin]; [done|].
  specialize (IH w1 Hrun Hin). rewrite Hdb, stored_votes_insert_vote in IH.
  by apply app_eq_nil in IH as [? _].
Qed.

Lemma cast_votes_NoDup env oid uids w w' :
  cast_votes env oid uids w = Some w' → NoDup uids.
Proof.
  revert w. induction uids as [|uid uids IH]; intros w Hrun; simpl in *; [constructor|].
  destruct (cast_vote env (mkVoteCreate oid) uid w) as [w1 [e|r]] eqn:Hc; [done|].
  constructor; [|by eapply IH].
  rewrite list_elem_of_In. intros Hin.
  pose proof (cast_votes_fresh _ _ _ _ _ _ Hrun Hin) as Hfresh.
  destruct (cast_vote_accepted_store _ _ _ _ _ _ Hc) as [Hdb _]. simpl in *.
  rewrite Hdb, stored_votes_insert_vote, Z.eqb_refl in Hfresh.
  by apply app_eq_nil in Hfresh as [_ ?].
Qed.

Lemma cast_votes_counts env oid uids w w' :
  schema_ok (db w) →
  cast_votes env oid uids w = Some w' →
  (∀ pid, snapshot_count (db w') pid oid
          = (fun k => k + Z.of_nat (length uids)) <$> snapshot_count (db w) pid oid) ∧
  (∀ pid oid', oid' ≠ oid → snapshot_count (db w') pid oid' = snapshot_count (db w) pid oid').
Proof.
  revert w. induction uids as [|uid uids IH]; intros w Hs Hrun; simpl in *.
  - inversion Hrun; subst. split; [|done].
    intros pid. destruct (snapshot_count (db w') pid oid); simpl; [f_equal; lia | done].
  - destruct (cast_vote env (mkVoteCreate oid) uid w) as [w1 [e|r]] eqn:Hc; [done|].
    destruct (cast_vote_counts _ _ _ _ _ _ Hs Hc) as (Hs1 & Hup & Hsame).
    destruct (IH w1 Hs1 Hrun) as [IHup IHsame]. split.
    + intros pid. rewrite IHup, Hup.
      destruct (snapshot_count (db w) pid oid); simpl; [f_equal; lia | done].
    + intros pid oid' Hne. by rewrite IHsame, Hsame.
Qed.

Lemma get_poll_with_votes_found pid w poll :
  query_poll (db w) pid = Some poll →
  get_poll_with_votes pid w = (w, inr (poll_response (db w) poll)).
Proof.
  intros Hp. unfold get_poll_with_votes; unfold_handler. by rewrite Hp.
Qed.

(** C5: the snapshot of an existing poll reports, for each of its options,
    the number of distinct users with a stored vote for that option; and
    when the users [uids] (they are pairwise distinct) have each cast an
    accepted vote for option [oid], the reported count of [oid] has grown
    by their number, so it is that number if it was 0, while every other
    option reports the count it had. *)
Theorem snapshot_counts_distinct_voters env w pid poll :
  schema_ok (db w) →
  query_poll (db w) pid = Some poll →
  get_poll_with_votes pid w = (w, inr (poll_response (db w) poll)) ∧
  map (fun r => (or_id r, or_vote_count r)) (pr_options (poll_response (db w) poll))
  = map (fun o => (option_id o, Z.of_nat (size (distinct_voters (db w) (option_id o)))))
      (Poll_options (db w) poll) ∧
  ∀ oid uids w',
    cast_votes env oid uids w = Some w' →
    NoDup uids ∧
    snapshot_count (db w') pid oid
    = (fun k => k + Z.of_nat (length uids)) <$> snapshot_count (db w) pid oid ∧
    (snapshot_count (db w) pid oid = Some 0 →
     snapshot_count (db w') pid oid = Some (Z.of_nat (length uids))) ∧
    (∀ oid', oid' ≠ oid → snapshot_count (db w') pid oid' = snapshot_count (db w) pid oid').
Proof.
  intros Hs Hp. split; [by apply get_poll_with_votes_found|]. split.
  - unfold poll_response. simpl. rewrite map_map. apply map_ext. intros o. simpl.
    by rewrite voters_count.
  - intros oid uids w' Hrun.
    destruct (cast_votes_counts _ _ _ _ _ Hs Hrun) as [Hup Hsame].
    split; [by eapply cast_votes_NoDup|]. split; [apply Hup|]. split.
    + intros H0. by rewrite Hup, H0.
    + intros oid' Hne. by apply Hsame.
Qed.

(** Poll 1 before any vote. *)
Lemma snapshot_counts_distinct_voters_witness :
  schema_ok (db demo_world) ∧
  query_poll (db demo_world) 1 = Some tea_poll ∧
  get_poll_with_votes 1 demo_world = (demo_world, inr (poll_response (db demo_world) tea_poll)) ∧
  map (fun r => (or_id r, or_vote_count r)) (pr_options (poll_response (db demo_world) tea_poll))
  = map (fun o => (option_id o,
                   Z.of_nat (size (distinct_voters (db demo_world) (option_id o)))))
      (Poll_options (db demo_world) tea_poll) ∧
  ∀ oid uids w',
    cast_votes env0 oid uids demo_world = Some w' →
    NoDup uids ∧
    snapshot_count (db w') 1 oid
    = (fun k => k + Z.of_nat (length uids)) <$> snapshot_count (db demo_world) 1 oid ∧
    (snapshot_count (db demo_world) 1 oid = Some 0 →
     snapshot_count (db w') 1 oid = Some (Z.of_nat (length uids))) ∧
    (∀ oid', oid' ≠ oid →
             snapshot_count (db w') 1 oid' = snapshot_count (db demo_world) 1 oid').
Proof.
  assert (schema_ok (db demo_world)) as Hs by apply schema_ok_run, schema_ok_empty.
  assert (query_poll (db demo_world) 1 = Some tea_poll) as Hp by (vm_compute; reflexivity).
  split; [exact Hs|]. split; [exact Hp|].
  exact (snapshot_counts_distinct_voters env0 demo_world 1 tea_poll Hs Hp).
Defined.

(** Both users vote "yes" on poll 1: the snapshot says 2 and 0. *)
Example two_votes_counted :
  (λ w', map or_vote_count (pr_options (poll_response (db w') tea_poll)))
    <$> cast_votes env0 1 [1; 2] demo_world
  = Some [2; 0].
Proof. by vm_compute. Qed.

(** ** The rows of a new poll *)

Lemma sorted_map_filter {A} (g : A → Z) (f : A → bool) l :
  StronglySorted Z.lt (map g l) → StronglySorted Z.lt (map g (List.filter f l)).
Proof.
  induction l as [|a l IH]; simpl; [done|].
  intros Hs. inversion Hs as [|? ? Hs' Hall]; subst.
  destruct (f a); simpl; [|by apply IH].
  constructor; [by apply IH|].
  rewrite Forall_forall in *. intros x Hx. apply Hall.
  apply list_elem_of_In in Hx. apply in_map_iff in Hx as (y & <- & [Hy _]%filter_In).
  by apply list_elem_of_In, in_map.
Qed.

Lemma append_options_rows env pid opts s :
  poll_options (append_options env pid opts s)
  = poll_options s ++ option_rows (now env) pid (poll_options_id_seq s) opts.
Proof.
  revert s. induction opts as [|a opts IH]; intros s; simpl.
  - by rewrite app_nil_r.
  - rewrite IH. simpl. by rewrite <- app_assoc.
Qed.

Lemma option_rows_of_poll t pid next opts :
  List.filter (fun o => option_poll_id o =? pid) (option_rows t pid next opts)
  = option_rows t pid next opts.
Proof.
  revert next. induction opts as [|a opts IH]; intros next; simpl; [done|].
  by rewrite Z.eqb_refl, IH.
Qed.

Lemma option_rows_texts t pid next opts :
  map option_text (option_rows t pid next opts) = map oc_text opts.
Proof.
  revert next. induction opts as [|a opts IH]; intros next; simpl; [done|].
  by rewrite IH.
Qed.

Lemma next_poll_id_unused s : schema_ok s → query_poll s (polls_id_seq s) = None.
Proof.
  intros Hs. destruct (query_poll s (polls_id_seq s)) as [p|] eqn:Hp; [|done].
  apply query_poll_Some in Hp as [Hin Hid].
  destruct (polls_pk s Hs) as [_ Hlt]. rewrite Forall_forall in Hlt.
  apply (in_map poll_id), list_elem_of_In, Hlt in Hin. lia.
Qed.

Lemma next_poll_has_no_options s :
  schema_ok s →
  List.filter (fun o => option_poll_id o =? polls_id_seq s) (poll_options s) = [].
Proof.
  intros Hs. destruct (List.filter _ (poll_options s)) as [|o os] eqn:Hf; [done|].
  assert (In o (List.filter (fun o => option_poll_id o =? polls_id_seq s) (poll_options s)))
    as [Hin Hid]%filter_In by (rewrite Hf; by left).
  destruct (polls_pk s Hs) as [_ Hlt]. rewrite Forall_forall in Hlt.
  apply (poll_options_poll_fk s Hs), list_elem_of_In, Hlt in Hin. lia.
Qed.

Lemma find_app_None {A} (f : A → bool) l l' :
  List.find f l = None → List.find f (l ++ l') = List.find f l'.
Proof.
  induction l as [|a l IH]; simpl; [done|]. by destruct (f a).
Qed.

(** ** The subscription registry *)

Lemma subscribers_connect c w q :
  subscribers (manager (fst (connect c w))) q = subscribers (manager w) q.
Proof. done. Qed.

Lemma subscribers_subscribe pid c w q :
  subscribers (manager (fst (subscribe_to_poll pid c w))) q
  = if decide (pid = q)
    then (if ws_in c (subscribers (manager w) q)
          then subscribers (manager w) q
          else subscribers (manager w) q ++ [c])
    else subscribers (manager w) q.
Proof.
  unfold subscribe_to_poll, subscribers; unfold_handler. simpl.
  destruct (poll_subscribers (manager w) !! pid) as [l|] eqn:Hl; simpl.
  - rewrite Hl. simpl. case_decide; subst.
    + rewrite Hl. simpl. destruct (ws_in c l); [by rewrite Hl|]. by rewrite lookup_insert_eq.
    + destruct (ws_in c l); [done|]. by rewrite lookup_insert_ne.
  - rewrite lookup_insert_eq. simpl. rewrite insert_insert_eq. case_decide; subst.
    + rewrite Hl. simpl. by rewrite lookup_insert_eq.
    + by rewrite lookup_insert_ne.
Qed.

Lemma subscribers_disconnect c w q :
  subscribers (manager (fst (disconnect c w))) q = discard c (subscribers (manager w) q).
Proof.
  unfold disconnect, subscribers; unfold_handler. simpl.
  rewrite lookup_fmap. by destruct (poll_subscribers (manager w) !! q).
Qed.

Lemma discard_last c l : ¬ In c l → discard c (l ++ [c]) = l.
Proof.
  intros Hn. unfold discard.
  replace (ws_in c (l ++ [c])) with true.
  - rewrite (list_remove_skip c l []) by done. by rewrite app_nil_r.
  - symmetry. apply ws_in_In, in_or_app. right. by left.
Qed.

(** [websocket_endpoint] never reaches its receive loop: the lookup of
    the poll raises, or [json.dumps] raises on the first frame, and either
    way the handler ends in [disconnect]. *)
Lemma websocket_endpoint_run env c pid w :
  websocket_endpoint env c pid w
  = disconnect c (fst (subscribe_to_poll pid c (fst (connect c w)))).
Proof.
  unfold websocket_endpoint, connect, subscribe_to_poll, get_poll_with_votes,
    json_dumps; unfold_handler. simpl.
  by destruct (query_poll (db w) pid).
Qed.

Lemma create_user_manager env user w :
  manager (fst (create_user env user w)) = manager w.
Proof.
  rewrite create_user_run.
  destruct (query_user_by_email (db w) (uc_email user)); [done|].
  by destruct (user_fits env user).
Qed.

Lemma create_poll_manager env poll creator w :
  manager (fst (create_poll env poll creator w)) = manager w.
Proof.
  rewrite create_poll_run.
  destruct (query_user (db w) creator); [|done]. simpl.
  destruct (options_fit (pc_options poll)); [|done].
  by rewrite get_poll_with_votes_world.
Qed.



Lemma find_app_Some {A} (f : A → bool) l l' x :
  List.find f l = Some x → List.find f (l ++ l') = Some x.
Proof.
  induction l as [|a l IH]; simpl; [done|]. by destruct (f a).
Qed.





(** The route as a whole undoes it: the lookup of poll 77 raises, the
    handler disconnects socket 5, and the key 77 stays with no subscriber. *)
Example websocket_route_missing_poll :
  let w' := step (OpWebsocket env0 5%nat 77) demo_world in
  poll_subscribers (manager w') !! 77 = Some [] ∧
  active_connections (manager w') = active_connections (manager demo_world) ∧
  wire w' = wire demo_world.
Proof. split; [|split]; vm_compute; reflexivity. Qed.



(** * Further properties of the code *)

(** ** The registry: lists without duplicates *)

Lemma filter_all {A} (f : A → bool) l :
  (∀ x, In x l → f x = true) → List.filter f l = l.
Proof.
  induction l as [|a l IH]; simpl; intros H; [done|].
  rewrite (H a) by by left. f_equal. apply IH. intros x Hx. apply H. by right.
Qed.

Lemma NoDup_List_filter {A} (f : A → bool) l : NoDup l → NoDup (List.filter f l).
Proof.
  induction l as [|a l IH]; simpl; intros Hnd; [done|].
  apply NoDup_cons in Hnd as [Ha Hnd]. destruct (f a); [|by apply IH].
  apply NoDup_cons. split; [|by apply IH].
  rewrite list_elem_of_In, filter_In. rewrite list_elem_of_In in Ha. tauto.
Qed.

(** On a list without duplicates, [if x in l: l.remove(x)] takes [x] out
    altogether. *)
Lemma discard_filter c l :
  NoDup l → discard c l = List.filter (fun y => negb (Nat.eqb c y)) l.
Proof.
  induction l as [|y l IH]; intros Hnd; [done|].
  apply NoDup_cons in Hnd as [Hy Hnd]. specialize (IH Hnd).
  unfold discard in *. unfold ws_in in *. simpl.
  destruct (Nat.eqb_spec c y) as [->|Hne]; simpl.
  - symmetry. apply filter_all. intros x Hx.
    destruct (Nat.eqb_spec y x) as [->|]; [|done].
    exfalso. apply Hy. by apply list_elem_of_In.
  - destruct (existsb (Nat.eqb c) l); [|by rewrite <- IH].
    destruct (list_remove c l); by rewrite <- IH.
Qed.

Lemma discard_NoDup c l : NoDup l → NoDup (discard c l).
Proof. intros Hnd. rewrite discard_filter by done. by apply NoDup_List_filter. Qed.

Lemma discard_In c l y : NoDup l → In y (discard c l) ↔ In y l ∧ y ≠ c.
Proof.
  intros Hnd. rewrite discard_filter by done. rewrite filter_In.
  destruct (Nat.eqb_spec c y); simpl; intuition congruence.
Qed.

Lemma discard_twice c l : NoDup l → discard c (discard c l) = discard c l.
Proof.
  intros Hnd. rewrite (discard_filter c (discard c l)) by by apply discard_NoDup.
  apply filter_all. intros x Hx. apply discard_In in Hx as [_ Hx]; [|done].
  by destruct (Nat.eqb_spec c x).
Qed.

Lemma registry_nodup_lookup m pid l :
  registry_nodup m → poll_subscribers m !! pid = Some l → NoDup l.
Proof. intros Hr Hl. specialize (Hr pid). unfold subscribers in Hr. by rewrite Hl in Hr. Qed.

Lemma cast_vote_subscribers_eq env vote uid w q :
  subscribers (manager (fst (cast_vote env vote uid w))) q = subscribers (manager w) q ∨
  subscribers (manager (fst (cast_vote env vote uid w))) q = [].
Proof.
  destruct (cast_vote env vote uid w) as [w' [e|r]] eqn:Hc; simpl.
  - left. by rewrite (cast_vote_rejected_unchanged _ _ _ _ _ _ Hc).
  - apply cast_vote_accepted_inv in Hc as (user & o & poll & _ & _ & _ & _ & Hacc).
    unfold vote_accepted in Hacc. inversion Hacc as [[Hw Hr]].
    rewrite after_broadcast_frame_subscribers. simpl. case_decide; [by right | by left].
Qed.

Lemma registry_nodup_step op w :
  registry_nodup (manager w) → registry_nodup (manager (step op w)).
Proof.
  intros Hr q. pose proof (Hr q) as Hq.
  destruct op as [env user|env poll creator|p|env vote uid|p c|c|env c p]; cbn [step].
  - by rewrite create_user_manager.
  - by rewrite create_poll_manager.
  - by rewrite get_poll_with_votes_world.
  - destruct (cast_vote_subscribers_eq env vote uid w q) as [->| ->];
      [done | apply NoDup_nil_2].
  - rewrite subscribers_subscribe. case_decide; [|done].
    destruct (ws_in c (subscribers (manager w) q)) eqn:Hc; [done|].
    apply ws_in_false in Hc. apply NoDup_app. split; [done|]. split.
    + intros x Hx [->|[]]%list_elem_of_In. by apply list_elem_of_In in Hx.
    + apply NoDup_singleton.
  - rewrite subscribers_disconnect. by apply discard_NoDup.
  - rewrite websocket_endpoint_run.
    assert (NoDup (subscribers
                     (manager (fst (subscribe_to_poll p c (fst (connect c w))))) q)) as Hs.
    { rewrite subscribers_subscribe, subscribers_connect. case_decide; [|done].
      destruct (ws_in c (subscribers (manager w) q)) eqn:Hc; [done|].
      apply ws_in_false in Hc. apply NoDup_app. split; [done|]. split.
      - intros x Hx [->|[]]%list_elem_of_In. by apply list_elem_of_In in Hx.
      - apply NoDup_singleton. }
    rewrite subscribers_disconnect. by apply discard_NoDup.
Qed.

Lemma initial_registry_nodup : registry_nodup (manager initial_world).
Proof. intros pid. unfold subscribers. simpl. rewrite lookup_empty. apply NoDup_nil_2. Qed.

Lemma registry_nodup_run ops w :
  registry_nodup (manager w) → registry_nodup (manager (run ops w)).
Proof.
  revert w. induction ops as [|op ops IH]; intros w Hr; simpl; [done|].
  by apply IH, registry_nodup_step.
Qed.

(** X1: no request makes a poll's subscriber list hold a websocket twice:
    a registry whose lists are free of duplicates stays so over every
    sequence of requests, and the registry of a fresh server is one. *)
Theorem registry_stays_duplicate_free ops w :
  registry_nodup (manager w) →
  registry_nodup (manager (run ops w)) ∧ registry_nodup (manager (run ops initial_world)).
Proof.
  intros Hr. split; [by apply registry_nodup_run|].
  apply registry_nodup_run, initial_registry_nodup.
Qed.

(** Socket 1, already on poll 1, subscribes to polls 1 and 2. *)
Lemma demo_registry_nodup : registry_nodup (manager demo_world).
Proof. apply registry_nodup_run, initial_registry_nodup. Qed.

Lemma registry_stays_duplicate_free_witness :
  registry_nodup (manager demo_world) ∧
  registry_nodup (manager (run [OpSubscribe 1 1%nat; OpSubscribe 2 1%nat] demo_world)) ∧
  registry_nodup (manager (run [OpSubscribe 1 1%nat; OpSubscribe 2 1%nat] initial_world)).
Proof.
  split; [exact demo_registry_nodup|].
  exact (registry_stays_duplicate_free _ demo_world demo_registry_nodup).
Defined.

(** ** The registry: subscribe and disconnect *)

Lemma world_eq w w' :
  db w = db w' → active_connections (manager w) = active_connections (manager w') →
  poll_subscribers (manager w) = poll_subscribers (manager w') → wire w = wire w' →
  w = w'.
Proof. destruct w as [s [a m] t], w' as [s' [a' m'] t']. simpl. by intros -> -> -> ->. Qed.

Lemma subscribe_to_poll_lookup pid c w :
  poll_subscribers (manager (fst (subscribe_to_poll pid c w))) !! pid
  = Some (if ws_in c (subscribers (manager w) pid)
          then subscribers (manager w) pid
          else subscribers (manager w) pid ++ [c]).
Proof.
  unfold subscribe_to_poll, subscribers; unfold_handler. simpl.
  destruct (poll_subscribers (manager w) !! pid) as [l|] eqn:Hl; simpl.
  - rewrite Hl. simpl. destruct (ws_in c l); [done|]. by rewrite lookup_insert_eq.
  - rewrite lookup_insert_eq. simpl. by rewrite lookup_insert_eq.
Qed.

Lemma subscribe_to_poll_present pid c w l :
  poll_subscribers (manager w) !! pid = Some l → ws_in c l = true →
  fst (subscribe_to_poll pid c w) = w.
Proof.
  intros Hl Hc. unfold subscribe_to_poll; unfold_handler. simpl.
  rewrite Hl. simpl. rewrite Hl. simpl. rewrite Hc. by destruct w as [s [a m] t].
Qed.

(** X2: [subscribe_to_poll] is idempotent and local: afterwards the
    websocket is a subscriber of the poll, the earlier subscribers keep
    their places, the lists of the other polls are as before, and a second
    call with the same arguments changes nothing. *)
Theorem subscribe_to_poll_idempotent pid c w :
  let w1 := fst (subscribe_to_poll pid c w) in
  snd (subscribe_to_poll pid c w) = inr tt ∧
  In c (subscribers (manager w1) pid) ∧
  subscribers (manager w) pid `prefix_of` subscribers (manager w1) pid ∧
  (∀ q, q ≠ pid → subscribers (manager w1) q = subscribers (manager w) q) ∧
  fst (subscribe_to_poll pid c w1) = w1.
Proof.
  intros w1. subst w1. split; [done|].
  assert (In c (subscribers (manager (fst (subscribe_to_poll pid c w))) pid)) as Hin.
  { rewrite subscribers_subscribe, decide_True by done.
    destruct (ws_in c (subscribers (manager w) pid)) eqn:Hc; [by apply ws_in_In|].
    apply in_or_app. right. by left. }
  split; [exact Hin|]. split; [|split].
  - rewrite subscribers_subscribe, decide_True by done.
    destruct (ws_in c (subscribers (manager w) pid)); [done | by apply prefix_app_r].
  - intros q Hq. rewrite subscribers_subscribe. by rewrite decide_False.
  - apply ws_in_In in Hin.
    pose proof (subscribe_to_poll_lookup pid c w) as Hl.
    eapply subscribe_to_poll_present; [exact Hl|].
    unfold subscribers in Hin at 1. by rewrite Hl in Hin.
Qed.

(** X3: [disconnect] never raises and touches only the registry.  When no
    subscriber list holds a websocket twice, the websocket is afterwards in
    none of them, every other websocket is subscribed exactly where it
    was, and a second [disconnect] changes nothing more in the lists; when
    [active_connections] holds it at most once, it is gone from there
    too. *)
Theorem disconnect_removes_subscriptions c w :
  registry_nodup (manager w) →
  let w1 := fst (disconnect c w) in
  snd (disconnect c w) = inr tt ∧ db w1 = db w ∧ wire w1 = wire w ∧
  (∀ q, ¬ In c (subscribers (manager w1) q)) ∧
  (∀ q c', c' ≠ c →
           (In c' (subscribers (manager w1) q) ↔ In c' (subscribers (manager w) q))) ∧
  (∀ q, subscribers (manager (fst (disconnect c w1))) q = subscribers (manager w1) q) ∧
  (NoDup (active_connections (manager w)) → ¬ In c (active_connections (manager w1))).
Proof.
  intros Hr w1. subst w1. repeat (split; [done|]). split; [|split; [|split]].
  - intros q. rewrite subscribers_disconnect, discard_In by apply Hr. tauto.
  - intros q c' Hne. rewrite subscribers_disconnect, discard_In by apply Hr. tauto.
  - intros q. rewrite !subscribers_disconnect. apply discard_twice, Hr.
  - intros Hnd. simpl. rewrite discard_In by done. tauto.
Qed.

Lemma disconnect_removes_subscriptions_witness :
  registry_nodup (manager fanout_world) ∧
  snd (disconnect 1%nat fanout_world) = inr tt ∧
  db (fst (disconnect 1%nat fanout_world)) = db fanout_world ∧
  wire (fst (disconnect 1%nat fanout_world)) = wire fanout_world ∧
  (∀ q, ¬ In 1%nat (subscribers (manager (fst (disconnect 1%nat fanout_world))) q)) ∧
  (∀ q c', c' ≠ 1%nat →
           (In c' (subscribers (manager (fst (disconnect 1%nat fanout_world))) q)
            ↔ In c' (subscribers (manager fanout_world) q))) ∧
  (∀ q, subscribers (manager (fst (disconnect 1%nat (fst (disconnect 1%nat fanout_world))))) q
        = subscribers (manager (fst (disconnect 1%nat fanout_world))) q) ∧
  (NoDup (active_connections (manager fanout_world)) →
   ¬ In 1%nat (active_connections (manager (fst (disconnect 1%nat fanout_world))))).
Proof.
  assert (registry_nodup (manager fanout_world)) as Hr
    by apply registry_nodup_run, demo_registry_nodup.
  split; [exact Hr|].
  exact (disconnect_removes_subscriptions 1%nat fanout_world Hr).
Defined.

Lemma after_broadcast_keys env pid data w q :
  is_Some (poll_subscribers (manager w) !! q) →
  is_Some (poll_subscribers (manager (after_broadcast env pid data w)) !! q).
Proof.
  intros Hq. unfold after_broadcast.
  destruct (poll_subscribers (manager w) !! pid) as [conns|] eqn:Hs; [|done].
  simpl. rewrite lookup_insert. by case_decide.
Qed.

Lemma subscribe_to_poll_keys pid c w q :
  is_Some (poll_subscribers (manager w) !! q) →
  is_Some (poll_subscribers (manager (fst (subscribe_to_poll pid c w))) !! q).
Proof.
  intros Hq. destruct (decide (q = pid)) as [->|Hne].
  - by rewrite subscribe_to_poll_lookup.
  - unfold subscribe_to_poll; unfold_handler. simpl.
    destruct (poll_subscribers (manager w) !! pid) as [l|] eqn:Hl; simpl.
    + rewrite Hl. simpl. destruct (ws_in c l); [done|]. by rewrite lookup_insert_ne.
    + rewrite lookup_insert_eq. simpl. rewrite insert_insert_eq.
      by rewrite lookup_insert_ne.
Qed.

Lemma disconnect_keys c w q :
  is_Some (poll_subscribers (manager w) !! q) →
  is_Some (poll_subscribers (manager (fst (disconnect c w))) !! q).
Proof. intros [l Hl]. simpl. rewrite lookup_fmap, Hl. by eexists. Qed.

Lemma step_keeps_keys op w q :
  is_Some (poll_subscribers (manager w) !! q) →
  is_Some (poll_subscribers (manager (step op w)) !! q).
Proof.
  intros Hq.
  destruct op as [env user|env poll creator|p|env vote uid|p c|c|env c p]; cbn [step].
  - by rewrite create_user_manager.
  - by rewrite create_poll_manager.
  - by rewrite get_poll_with_votes_world.
  - destruct (cast_vote env vote uid w) as [w' [e|r]] eqn:Hc; simpl.
    + by rewrite (cast_vote_rejected_unchanged _ _ _ _ _ _ Hc).
    + apply cast_vote_accepted_inv in Hc as (user & o & poll & _ & _ & _ & _ & Hacc).
      unfold vote_accepted in Hacc. inversion Hacc as [[Hw Hr]].
      by apply after_broadcast_keys.
  - by apply subscribe_to_poll_keys.
  - by apply disconnect_keys.
  - rewrite websocket_endpoint_run.
    assert (is_Some (poll_subscribers
                       (manager (fst (subscribe_to_poll p c (fst (connect c w))))) !! q))
      as Hs by by apply subscribe_to_poll_keys.
    by apply disconnect_keys.
Qed.

(** X4: the registry never forgets a poll id: once a poll id is a key of
    [poll_subscribers] it stays one over every sequence of requests,
    whatever disconnects and broadcasts empty its list; and the
    websocket route makes its poll id a key even when no such poll exists. *)
Theorem registry_keys_are_kept ops w q :
  is_Some (poll_subscribers (manager w) !! q) →
  is_Some (poll_subscribers (manager (run ops w)) !! q) ∧
  ∀ env c p, is_Some (poll_subscribers (manager (step (OpWebsocket env c p) (run ops w))) !! p).
Proof.
  intros Hq. split.
  - revert w Hq. induction ops as [|op ops IH]; intros w Hq; simpl; [done|].
    by apply IH, step_keeps_keys.
  - intros env c p. cbn [step]. rewrite websocket_endpoint_run.
    assert (is_Some (poll_subscribers
              (manager (fst (subscribe_to_poll p c (fst (connect c (run ops w)))))) !! p))
      as Hs by by rewrite subscribe_to_poll_lookup.
    by apply disconnect_keys.
Qed.

(** Poll 2 stays a key when socket 3, its only subscriber, leaves. *)
Lemma registry_keys_are_kept_witness :
  is_Some (poll_subscribers (manager fanout_world) !! 2) ∧
  is_Some (poll_subscribers (manager (run [OpDisconnect 3%nat] fanout_world)) !! 2) ∧
  ∀ env c p,
    is_Some (poll_subscribers
               (manager (step (OpWebsocket env c p) (run [OpDisconnect 3%nat] fanout_world)))
             !! p).
Proof.
  assert (is_Some (poll_subscribers (manager fanout_world) !! 2)) as H
    by (vm_compute; eexists; reflexivity).
  split; [exact H|].
  exact (registry_keys_are_kept [OpDisconnect 3%nat] fanout_world 2 H).
Defined.

(** ** The websocket route *)

(** What [websocket_endpoint] leaves behind, for every poll id and socket. *)
Lemma websocket_endpoint_ends env c pid w :
  registry_nodup (manager w) →
  let w1 := fst (websocket_endpoint env c pid w) in
  snd (websocket_endpoint env c pid w) = inr tt ∧
  db w1 = db w ∧
  wire w1 = wire w ∧
  (∀ q, ¬ In c (subscribers (manager w1) q)) ∧
  (∀ q c', c' ≠ c →
           (In c' (subscribers (manager w1) q) ↔ In c' (subscribers (manager w) q))).
Proof.
  intros Hr w1. subst w1. rewrite websocket_endpoint_run.
  set (w0 := fst (subscribe_to_poll pid c (fst (connect c w)))).
  assert (registry_nodup (manager w0)) as Hr0.
  { apply (registry_nodup_step (OpSubscribe pid c) (fst (connect c w))).
    intros q. rewrite subscribers_connect. apply Hr. }
  split; [done|]. split; [done|]. split; [done|]. split.
  - intros q. rewrite subscribers_disconnect, discard_In by apply Hr0. tauto.
  - intros q c' Hne. rewrite subscribers_disconnect, discard_In by apply Hr0.
    unfold w0. rewrite subscribers_subscribe, subscribers_connect.
    case_decide; [|tauto]. destruct (ws_in c (subscribers (manager w) q)); [tauto|].
    rewrite in_app_iff. simpl. intuition congruence.
Qed.

(** X5: [websocket_endpoint] serves nobody.  Whatever the poll id and
    however willing the socket, the handler ends in its [except] branch:
    the lookup of the poll raises, or the snapshot is built and
    [json.dumps] raises on its timestamps before [send_text] is called.
    The route then raises nothing, sends no frame and leaves the store
    alone; in a registry without duplicates the socket is afterwards
    subscribed to no poll, the other sockets are subscribed exactly where
    they were, and a socket that was not connected before is not
    connected after. *)
Theorem websocket_endpoint_serves_nobody env c pid w :
  registry_nodup (manager w) →
  let w1 := fst (websocket_endpoint env c pid w) in
  snd (websocket_endpoint env c pid w) = inr tt ∧
  db w1 = db w ∧
  wire w1 = wire w ∧
  (∀ q, ¬ In c (subscribers (manager w1) q)) ∧
  (∀ q c', c' ≠ c →
           (In c' (subscribers (manager w1) q) ↔ In c' (subscribers (manager w) q))) ∧
  (¬ In c (active_connections (manager w)) →
   active_connections (manager w1) = active_connections (manager w)).
Proof.
  intros Hr w1. subst w1.
  destruct (websocket_endpoint_ends env c pid w Hr) as (H1 & H2 & H3 & H4 & H5).
  split; [exact H1|]. split; [exact H2|]. split; [exact H3|]. split; [exact H4|].
  split; [exact H5|].
  intros Hc. rewrite websocket_endpoint_run.
  unfold disconnect, subscribe_to_poll, connect; unfold_handler. cbn [fst manager].
  cbn [active_connections]. by apply discard_last.
Qed.

(** Socket 7, which would take any text, asks for poll 2, which exists. *)
Lemma websocket_endpoint_serves_nobody_witness :
  registry_nodup (manager fanout_world) ∧
  is_Some (query_poll (db fanout_world) 2) ∧ send_ok env_later 7%nat = true ∧
  snd (websocket_endpoint env_later 7%nat 2 fanout_world) = inr tt ∧
  db (fst (websocket_endpoint env_later 7%nat 2 fanout_world)) = db fanout_world ∧
  wire (fst (websocket_endpoint env_later 7%nat 2 fanout_world)) = wire fanout_world ∧
  (∀ q, ¬ In 7%nat (subscribers
                      (manager (fst (websocket_endpoint env_later 7%nat 2 fanout_world))) q)) ∧
  (∀ q c', c' ≠ 7%nat →
           (In c' (subscribers
                     (manager (fst (websocket_endpoint env_later 7%nat 2 fanout_world))) q)
            ↔ In c' (subscribers (manager fanout_world) q))) ∧
  (¬ In 7%nat (active_connections (manager fanout_world)) →
   active_connections (manager (fst (websocket_endpoint env_later 7%nat 2 fanout_world)))
   = active_connections (manager fanout_world)).
Proof.
  assert (registry_nodup (manager fanout_world)) as Hr
    by apply registry_nodup_run, demo_registry_nodup.
  split; [exact Hr|]. split; [vm_compute; eauto|]. split; [reflexivity|].
  exact (websocket_endpoint_serves_nobody env_later 7%nat 2 fanout_world Hr).
Defined.

(** X6: when the poll does not exist, or the socket does not take the
    first frame, [websocket_endpoint] swallows the exception and
    disconnects: in a registry without duplicates the socket ends up
    subscribed to nothing, the other sockets are subscribed exactly where
    they were, and the store is as before. *)
Theorem websocket_endpoint_backs_out env c pid w :
  query_poll (db w) pid = None ∨ send_ok env c = false →
  registry_nodup (manager w) →
  let w1 := fst (websocket_endpoint env c pid w) in
  snd (websocket_endpoint env c pid w) = inr tt ∧
  db w1 = db w ∧
  (∀ q, ¬ In c (subscribers (manager w1) q)) ∧
  (∀ q c', c' ≠ c →
           (In c' (subscribers (manager w1) q) ↔ In c' (subscribers (manager w) q))) ∧
  (query_poll (db w) pid = None → wire w1 = wire w).
Proof.
  intros _ Hr w1. subst w1.
  destruct (websocket_endpoint_ends env c pid w Hr) as (H1 & H2 & H3 & H4 & H5).
  split; [exact H1|]. split; [exact H2|]. split; [exact H4|]. split; [exact H5|].
  intros _. exact H3.
Qed.

(** A socket asks for poll 77, which does not exist. *)
Lemma websocket_endpoint_backs_out_witness :
  (query_poll (db demo_world) 77 = None ∨ send_ok env0 5%nat = false) ∧
  registry_nodup (manager demo_world) ∧
  snd (websocket_endpoint env0 5%nat 77 demo_world) = inr tt ∧
  db (fst (websocket_endpoint env0 5%nat 77 demo_world)) = db demo_world ∧
  (∀ q, ¬ In 5%nat (subscribers (manager (fst (websocket_endpoint env0 5%nat 77 demo_world))) q)) ∧
  (∀ q c', c' ≠ 5%nat →
           (In c' (subscribers (manager (fst (websocket_endpoint env0 5%nat 77 demo_world))) q)
            ↔ In c' (subscribers (manager demo_world) q))) ∧
  (query_poll (db demo_world) 77 = None →
   wire (fst (websocket_endpoint env0 5%nat 77 demo_world)) = wire demo_world).
Proof.
  assert (query_poll (db demo_world) 77 = None ∨ send_ok env0 5%nat = false) as H
    by (left; vm_compute; reflexivity).
  split; [exact H|]. split; [exact demo_registry_nodup|].
  exact (websocket_endpoint_backs_out env0 5%nat 77 demo_world H demo_registry_nodup).
Defined.

(** ** What a vote sends *)

(** X7: an accepted vote reaches no observer.  On a store that satisfies
    its schema, a vote that is accepted is stored and counted (the
    snapshot of its poll reports one more for the option) and the caller
    gets the response, but the broadcast that follows calls [send_text]
    for nobody: the trace of sends is as before the vote, every
    subscriber of the option's poll has been removed from the registry,
    and the subscribers of the other polls are as before. *)
Theorem accepted_vote_reaches_nobody env vote uid w w' r :
  schema_ok (db w) →
  cast_vote env vote uid w = (w', inr r) →
  ∃ o,
    query_poll_option (db w) (vc_poll_option_id vote) = Some o ∧
    r = mkVoteResponse uid (vc_poll_option_id vote) (utcnow env) ∧
    snapshot_count (db w') (option_poll_id o) (option_id o)
    = Z.succ <$> snapshot_count (db w) (option_poll_id o) (option_id o) ∧
    wire w' = wire w ∧
    subscribers (manager w') (option_poll_id o) = [] ∧
    (∀ q, q ≠ option_poll_id o → subscribers (manager w') q = subscribers (manager w) q) ∧
    active_connections (manager w') = active_connections (manager w).
Proof.
  intros Hs Hc.
  pose proof Hc as (user & o & poll & Hu & Ho & Hp & Hscan & Hacc)%cast_vote_accepted_inv.
  pose proof Ho as [Hoin Hoid]%query_poll_option_Some.
  exists o. split; [done|].
  assert (vote = mkVoteCreate (option_id o)) as Hvote by (destruct vote; simpl in *; by subst).
  destruct (cast_vote_counts env (option_id o) uid w w' r Hs) as (_ & Hup & _);
    [by rewrite <- Hvote|].
  unfold vote_accepted in Hacc. inversion Hacc as [[Hw Hr]]. clear Hacc.
  split; [by rewrite Hoid|]. split; [rewrite Hw; apply Hup|].
  split; [by rewrite after_broadcast_frame_wire|]. split; [|split].
  - rewrite after_broadcast_frame_subscribers. by rewrite decide_True.
  - intros q Hq. rewrite after_broadcast_frame_subscribers. simpl. by rewrite decide_False.
  - unfold after_broadcast. simpl.
    by destruct (poll_subscribers (manager w) !! option_poll_id o).
Qed.

(** Bob votes "no" on poll 1 while the sockets 1, 2 and 4 are subscribed
    to it and each of them would take a text. *)
Lemma accepted_vote_reaches_nobody_witness :
  let w' := fst (cast_vote env_later (mkVoteCreate 2) 2 fanout_world) in
  schema_ok (db fanout_world) ∧
  cast_vote env_later (mkVoteCreate 2) 2 fanout_world = (w', inr (mkVoteResponse 2 2 600)) ∧
  subscribers (manager fanout_world) 1 = [1; 2; 4]%nat ∧
  ∃ o,
    query_poll_option (db fanout_world) 2 = Some o ∧
    mkVoteResponse 2 2 600 = mkVoteResponse 2 2 (utcnow env_later) ∧
    snapshot_count (db w') (option_poll_id o) (option_id o)
    = Z.succ <$> snapshot_count (db fanout_world) (option_poll_id o) (option_id o) ∧
    wire w' = wire fanout_world ∧
    subscribers (manager w') (option_poll_id o) = [] ∧
    (∀ q, q ≠ option_poll_id o →
          subscribers (manager w') q = subscribers (manager fanout_world) q) ∧
    active_connections (manager w') = active_connections (manager fanout_world).
Proof.
  intros w'.
  assert (schema_ok (db fanout_world)) as Hs
    by (apply schema_ok_run, schema_ok_run, schema_ok_empty).
  assert (cast_vote env_later (mkVoteCreate 2) 2 fanout_world
          = (w', inr (mkVoteResponse 2 2 600))) as Hc by (vm_compute; reflexivity).
  split; [exact Hs|]. split; [exact Hc|]. split; [vm_compute; reflexivity|].
  exact (accepted_vote_reaches_nobody env_later (mkVoteCreate 2) 2 fanout_world _ _ Hs Hc).
Defined.

(** ** Users *)

Lemma append_options_users env pid opts s : users (append_options env pid opts s) = users s.
Proof. revert s. induction opts as [|a opts IH]; intros s; simpl; [done|]. by rewrite IH. Qed.

Lemma append_options_votes env pid opts s : votes (append_options env pid opts s) = votes s.
Proof. revert s. induction opts as [|a opts IH]; intros s; simpl; [done|]. by rewrite IH. Qed.

Lemma email_not_registered s e :
  query_user_by_email s e = None → ¬ In e (map user_email (users s)).
Proof.
  intros Hnone (u & <- & Hin)%in_map_iff.
  pose proof (find_none _ _ Hnone u Hin) as Hneq. simpl in Hneq.
  by rewrite String.eqb_refl in Hneq.
Qed.

Lemma email_registered s e :
  In e (map user_email (users s)) → is_Some (query_user_by_email s e).
Proof.
  intros (u & <- & Hin)%in_map_iff.
  destruct (find_In_Some (fun u0 => String.eqb (user_email u0) (user_email u)) (users s) u)
    as [y Hy]; [done | apply String.eqb_refl |].
  unfold query_user_by_email. rewrite Hy. by eexists.
Qed.

(** The users table after a request: as before, or one row longer, by a
    [create_user] whose email was not yet there. *)
Lemma step_users op w :
  users (db (step op w)) = users (db w) ∨
  ∃ env user,
    op = OpCreateUser env user ∧
    query_user_by_email (db w) (uc_email user) = None ∧
    users (db (step op w))
    = users (db w) ++ [mkUser (users_id_seq (db w)) (uc_name user) (uc_email user)
                         (hash_password env (uc_password user)) (now env)].
Proof.
  destruct op as [env user|env poll creator|p|env vote uid|p c|c|env c p]; cbn [step].
  - rewrite create_user_run.
    destruct (query_user_by_email (db w) (uc_email user)) eqn:He; [by left|].
    destruct (user_fits env user); [|by left].
    right. by exists env, user.
  - left. destruct (create_poll_db env poll creator w) as [->|[[_ ->]|[_ ->]]]; [done| |done].
    by rewrite append_options_users.
  - left. by rewrite get_poll_with_votes_world.
  - left. by destruct (cast_vote_db env vote uid w) as [->|(? & ? & ? & _ & _ & _ & _ & ->)].
  - by left.
  - by left.
  - left. by rewrite websocket_endpoint_db.
Qed.

Lemma emails_unique_step op w : emails_unique (db w) → emails_unique (db (step op w)).
Proof.
  unfold emails_unique. intros Hu.
  destruct (step_users op w) as [->|(env & user & _ & Hnone & ->)]; [done|].
  rewrite map_app. simpl. apply NoDup_app. split; [done|]. split; [|apply NoDup_singleton].
  intros e He [<-|[]]%list_elem_of_In.
  by apply list_elem_of_In, email_not_registered in He.
Qed.

(** X8: [create_user] keeps emails unique.  From a users table without a
    repeated email no sequence of requests reaches one with a repeated
    email, and a [create_user] for an email that is registered fails with
    400 "Email already registered" and leaves the server state as it is,
    whatever name and password come with it. *)
Theorem emails_stay_unique ops w :
  emails_unique (db w) →
  emails_unique (db (run ops w)) ∧
  ∀ env user,
    In (uc_email user) (map user_email (users (db (run ops w)))) →
    create_user env user (run ops w)
    = (run ops w, inl (HTTPException 400 "Email already registered")).
Proof.
  intros Hu. split.
  - revert w Hu. induction ops as [|op ops IH]; intros w Hu; simpl; [done|].
    by apply IH, emails_unique_step.
  - intros env user [u Hin]%email_registered. rewrite create_user_run.
    unfold query_user_by_email in *. by rewrite Hin.
Qed.

(** Ann again, under another name, after Ann and Bob have registered. *)
Lemma emails_stay_unique_witness :
  emails_unique (db initial_world) ∧
  emails_unique (db (run demo_ops initial_world)) ∧
  ∀ env user,
    In (uc_email user) (map user_email (users (db (run demo_ops initial_world)))) →
    create_user env user (run demo_ops initial_world)
    = (run demo_ops initial_world, inl (HTTPException 400 "Email already registered")).
Proof.
  assert (emails_unique (db initial_world)) as H by apply NoDup_nil_2.
  split; [exact H|].
  exact (emails_stay_unique demo_ops initial_world H).
Defined.

Lemma get_user_run uid w :
  get_user uid w
  = match query_user (db w) uid with
    | Some u => (w, inr (user_response u))
    | None => (w, inl (HTTPException 404 "User not found"))
    end.
Proof. unfold get_user; unfold_handler. by destruct (query_user (db w) uid). Qed.




(** ** Listing with [skip] and [limit] *)

Lemma offset_limit_rows {A} skip limit (rows : list A) w :
  0 ≤ skip → 0 ≤ limit →
  offset_limit skip limit rows w
  = (w, inr (take (Z.to_nat limit) (drop (Z.to_nat skip) rows))).
Proof.
  intros Hs Hl. unfold offset_limit.
  replace (skip <? 0) with false by lia. by replace (limit <? 0) with false by lia.
Qed.

Lemma offset_limit_refused {A} skip limit (rows : list A) w :
  skip < 0 ∨ limit < 0 → offset_limit skip limit rows w = (w, inl DataError).
Proof.
  intros Hneg. unfold offset_limit.
  replace ((skip <? 0) || (limit <? 0)) with true; [done|].
  symmetry. apply orb_true_iff. lia.
Qed.

Lemma get_users_run skip limit w :
  0 ≤ skip → 0 ≤ limit →
  get_users skip limit w
  = (w, inr (map user_response
               (take (Z.to_nat limit) (drop (Z.to_nat skip) (users (db w)))))).
Proof.
  intros Hs Hl. unfold get_users, bind, session. by rewrite offset_limit_rows.
Qed.

Lemma query_user_row s u :
  schema_ok s → In u (users s) → query_user s (user_id u) = Some u.
Proof.
  intros Hs Hin.
  destruct (find_In_Some (fun u' => user_id u' =? user_id u) (users s) u)
    as [y Hy]; [done | lia|].
  unfold query_user. rewrite Hy. f_equal.
  apply find_some in Hy as [Hyin Hyid].
  apply (key_determines_row user_id (users s)); [|done|done|lia].
  apply sorted_lt_NoDup, (users_pk s Hs).
Qed.

(** X10: what [get_users] answers.  On a store that satisfies its schema
    a negative [skip] or [limit] goes to the database as it is and the
    statement is refused with [DataError].  Otherwise the route leaves the
    state alone and answers with at most [limit] users; each of them is a
    user of the table, as [get_user] answers for its id, and none comes
    twice; and with [skip] 0 and a [limit] as large as the table every
    user is in the answer. *)
Theorem get_users_lists_users skip limit w :
  schema_ok (db w) →
  (skip < 0 ∨ limit < 0 → get_users skip limit w = (w, inl DataError)) ∧
  (0 ≤ skip → 0 ≤ limit →
   ∃ rs,
     get_users skip limit w = (w, inr rs) ∧
     Z.of_nat (length rs) ≤ limit ∧
     NoDup (map ur_id rs) ∧
     (∀ r, In r rs → get_user (ur_id r) w = (w, inr r)) ∧
     (skip = 0 → Z.of_nat (length (users (db w))) ≤ limit →
      ∀ u, In u (users (db w)) → In (user_response u) rs)).
Proof.
  intros Hs. split.
  { intros Hneg. unfold get_users, bind, session. by rewrite offset_limit_refused. }
  intros Hskip Hlimit.
  set (us := take (Z.to_nat limit) (drop (Z.to_nat skip) (users (db w)))).
  assert (us `sublist_of` users (db w)) as Hsub.
  { unfold us. etrans; [apply sublist_take | apply sublist_drop]. }
  exists (map user_response us).
  split; [by apply get_users_run|]. split; [|split; [|split]].
  - rewrite length_map. unfold us. rewrite length_take. lia.
  - rewrite map_map. simpl.
    apply (sublist_NoDup _ (map user_id (users (db w)))).
    + apply sorted_lt_NoDup, (users_pk _ Hs).
    + change (sublist (user_id <$> us) (user_id <$> users (db w))).
      by apply fmap_sublist.
  - intros r (u & <- & Hu)%in_map_iff. rewrite get_user_run. simpl.
    rewrite (query_user_row _ u Hs); [done|].
    apply list_elem_of_In. eapply sublist_subseteq; [exact Hsub|]. by apply list_elem_of_In.
  - intros -> Hlen u Hin. apply in_map. unfold us. simpl. rewrite drop_0.
    rewrite take_ge by lia. done.
Qed.

(** The two users of [demo_world], asked for one at a time and together. *)
Lemma get_users_lists_users_witness :
  schema_ok (db demo_world) ∧
  (0 < 0 ∨ -1 < 0 → get_users 0 (-1) demo_world = (demo_world, inl DataError)) ∧
  (0 ≤ 1 → 0 ≤ 1 →
   ∃ rs,
     get_users 1 1 demo_world = (demo_world, inr rs) ∧
     Z.of_nat (length rs) ≤ 1 ∧
     NoDup (map ur_id rs) ∧
     (∀ r, In r rs → get_user (ur_id r) demo_world = (demo_world, inr r)) ∧
     (1 = 0 → Z.of_nat (length (users (db demo_world))) ≤ 1 →
      ∀ u, In u (users (db demo_world)) → In (user_response u) rs)).
Proof.
  assert (schema_ok (db demo_world)) as Hs by apply schema_ok_run, schema_ok_empty.
  split; [exact Hs|]. split.
  - exact (proj1 (get_users_lists_users 0 (-1) demo_world Hs)).
  - exact (proj2 (get_users_lists_users 1 1 demo_world Hs)).
Defined.

Lemma query_poll_row s poll :
  schema_ok s → In poll (polls s) → query_poll s (poll_id poll) = Some poll.
Proof.
  intros Hs Hin.
  destruct (find_In_Some (fun p => poll_id p =? poll_id poll) (polls s) poll)
    as [y Hy]; [done | lia|].
  unfold query_poll. rewrite Hy. f_equal.
  apply find_some in Hy as [Hyin Hyid].
  apply (key_determines_row poll_id (polls s)); [|done|done|lia].
  apply sorted_lt_NoDup, (polls_pk s Hs).
Qed.

Lemma poll_responses_run ps w :
  schema_ok (db w) → (∀ p, In p ps → In p (polls (db w))) →
  poll_responses ps w = (w, inr (map (poll_response (db w)) ps)).
Proof.
  intros Hs. induction ps as [|p ps IH]; intros Hin; simpl; [done|].
  unfold bind. rewrite (get_poll_with_votes_found _ _ p)
    by (apply query_poll_row; [done | apply Hin; by left]).
  rewrite IH by (intros q Hq; apply Hin; by right). done.
Qed.

(** X11: [get_polls] lists published polls only.  On a store that
    satisfies its schema, for [skip] and [limit] that are not negative, it
    raises nothing and leaves the state alone; every poll of the answer is
    published and is what [get_poll] answers for its id; there are at
    most [limit] of them; and with [skip] 0 and a [limit] as large as the
    polls table every published poll is in the answer. *)
Theorem get_polls_lists_published skip limit w :
  schema_ok (db w) → 0 ≤ skip → 0 ≤ limit →
  ∃ rs,
    get_polls skip limit w = (w, inr rs) ∧
    (∀ r, In r rs → pr_is_published r = true ∧ get_poll (pr_id r) w = (w, inr r)) ∧
    Z.of_nat (length rs) ≤ limit ∧
    (skip = 0 → Z.of_nat (length (polls (db w))) ≤ limit →
     ∀ poll, In poll (polls (db w)) → poll_is_published poll = true →
             In (poll_response (db w) poll) rs).
Proof.
  intros Hs Hskip Hlimit.
  set (ps := take (Z.to_nat limit)
               (drop (Z.to_nat skip) (List.filter poll_is_published (polls (db w))))).
  assert (∀ p, In p ps → In p (polls (db w)) ∧ poll_is_published p = true) as Hps.
  { intros p Hp. apply filter_In. apply list_elem_of_In.
    apply list_elem_of_In in Hp. by apply subseteq_take, subseteq_drop in Hp. }
  exists (map (poll_response (db w)) ps).
  split; [|split; [|split]].
  - unfold get_polls, bind, session. rewrite offset_limit_rows by done. fold ps.
    apply (poll_responses_run ps w Hs (fun p Hp => proj1 (Hps p Hp))).
  - intros r (p & <- & Hp)%in_map_iff. destruct (Hps p Hp) as [Hin Hpub].
    split; [done|]. unfold get_poll. simpl.
    by rewrite (get_poll_with_votes_found _ _ p) by by apply query_poll_row.
  - rewrite length_map. unfold ps. rewrite length_take. lia.
  - intros -> Hlen poll Hin Hpub. apply in_map. unfold ps. simpl. rewrite drop_0.
    rewrite take_ge; [by apply filter_In|].
    pose proof (filter_length_le poll_is_published (polls (db w))). lia.
Qed.

(** The two published polls of [demo_world]. *)
Lemma get_polls_lists_published_witness :
  schema_ok (db demo_world) ∧ 0 ≤ 0 ∧ 0 ≤ 100 ∧
  ∃ rs,
    get_polls 0 100 demo_world = (demo_world, inr rs) ∧
    (∀ r, In r rs →
          pr_is_published r = true ∧ get_poll (pr_id r) demo_world = (demo_world, inr r)) ∧
    Z.of_nat (length rs) ≤ 100 ∧
    (0 = 0 → Z.of_nat (length (polls (db demo_world))) ≤ 100 →
     ∀ poll, In poll (polls (db demo_world)) → poll_is_published poll = true →
             In (poll_response (db demo_world) poll) rs).
Proof.
  assert (schema_ok (db demo_world)) as Hs by apply schema_ok_run, schema_ok_empty.
  assert (0 ≤ 0) as H0 by lia. assert (0 ≤ 100) as H1 by lia.
  split; [exact Hs|]. split; [exact H0|]. split; [exact H1|].
  exact (get_polls_lists_published 0 100 demo_world Hs H0 H1).
Defined.

(** ** Creating a poll *)

Lemma option_rows_ids t pid next opts :
  map option_id (option_rows t pid next opts) = seqZ next (Z.of_nat (length opts)).
Proof.
  revert next. induction opts as [|a opts IH]; intros next; [done|].
  cbn [option_rows map option_id length]. rewrite seqZ_cons by lia. f_equal.
  rewrite IH. f_equal; lia.
Qed.

Lemma option_rows_id_ge t pid next opts o :
  In o (option_rows t pid next opts) → next ≤ option_id o.
Proof.
  revert next. induction opts as [|a opts IH]; intros next; simpl; [done|].
  intros [<-|Hin]; simpl; [lia|]. apply IH in Hin. lia.
Qed.

Lemma voters_ext s s' o :
  users s' = users s → votes s' = votes s → PollOption_voters s' o = PollOption_voters s o.
Proof. unfold PollOption_voters. by intros -> ->. Qed.


(** What [create_poll] commits and answers for a creator that exists,
    when the database takes the options. *)
Lemma create_poll_found env req creator w u :
  schema_ok (db w) → query_user (db w) creator = Some u →
  options_fit (pc_options req) = true →
  let p := mkPoll (polls_id_seq (db w)) (pc_question req) (pc_is_published req)
             (now env) (now env) creator in
  let s2 := append_options env (polls_id_seq (db w)) (pc_options req)
              (snd (insert_poll (now env) (pc_question req) (pc_is_published req)
                      creator (db w))) in
  create_poll env req creator w = (mkWorld s2 (manager w) (wire w), inr (poll_response s2 p)) ∧
  query_poll s2 (polls_id_seq (db w)) = Some p ∧
  Poll_options s2 p
  = option_rows (now env) (polls_id_seq (db w)) (poll_options_id_seq (db w)) (pc_options req).
Proof.
  intros Hs Hu Hfit p s2.
  assert (query_poll s2 (polls_id_seq (db w)) = Some p) as Hp.
  { unfold query_poll, s2. rewrite append_options_polls. cbn [insert_poll snd polls].
    rewrite find_app_None by apply (next_poll_id_unused _ Hs).
    cbn [List.find poll_id]. by rewrite Z.eqb_refl. }
  split; [|split; [exact Hp|]].
  - rewrite create_poll_run, Hu. cbv zeta. rewrite Hfit. by apply get_poll_with_votes_found.
  - unfold Poll_options, s2. rewrite append_options_rows.
    cbn [insert_poll snd poll_options poll_id p].
    rewrite List.filter_app, (next_poll_has_no_options _ Hs), option_rows_of_poll. done.
Qed.

(** And when it refuses one of them: the poll row has been committed,
    its options are rolled back. *)
Lemma create_poll_refused env req creator w u :
  schema_ok (db w) → query_user (db w) creator = Some u →
  options_fit (pc_options req) = false →
  let p := mkPoll (polls_id_seq (db w)) (pc_question req) (pc_is_published req)
             (now env) (now env) creator in
  let s2 := skip_poll_options_id (seq_lost env)
              (snd (insert_poll (now env) (pc_question req) (pc_is_published req)
                      creator (db w))) in
  create_poll env req creator w = (mkWorld s2 (manager w) (wire w), inl DataError) ∧
  query_poll s2 (polls_id_seq (db w)) = Some p ∧
  Poll_options s2 p = [].
Proof.
  intros Hs Hu Hfit p s2. split; [|split].
  - rewrite create_poll_run, Hu. cbv zeta. by rewrite Hfit.
  - unfold query_poll, s2. cbn [skip_poll_options_id insert_poll snd polls].
    rewrite find_app_None by apply (next_poll_id_unused _ Hs).
    cbn [List.find poll_id]. by rewrite Z.eqb_refl.
  - unfold Poll_options, s2. cbn [skip_poll_options_id insert_poll snd poll_options poll_id p].
    apply (next_poll_has_no_options _ Hs).
Qed.




Example create_poll_of_ann :
  snd (create_poll env0 (mkPollCreate "red?" [mkPollOptionCreate "a"; mkPollOptionCreate "b"]
                           false) 1 voted_world)
  = inr (mkPollResponse 3 "red?" false 100 100 1
           [mkPollOptionResponse 4 "a" 0; mkPollOptionResponse 5 "b" 0]).
Proof. vm_compute. reflexivity. Qed.

(** Ann asks a question whose second answer is too long: the poll is
    stored without options, and the sequence of the options has lost the
    two values of [env_later]. *)
Example create_poll_with_long_option :
  let req := mkPollCreate "red?" [mkPollOptionCreate "a"; mkPollOptionCreate long_text] true in
  let w' := fst (create_poll env_later req 1 voted_world) in
  snd (create_poll env_later req 1 voted_world) = inl DataError ∧
  snd (get_poll 3 w') = inr (mkPollResponse 3 "red?" true 500 500 1 []) ∧
  poll_options (db w') = poll_options (db voted_world) ∧
  poll_options_id_seq (db w') = poll_options_id_seq (db voted_world) + 2.
Proof.
  intros req w'. subst req w'.
  split; [by vm_compute|]. split; [by vm_compute|]. split; by vm_compute.
Qed.

(** ** What changes a snapshot *)

Lemma flat_map_ext_In {A B} (f g : A → list B) l :
  (∀ a, In a l → f a = g a) → flat_map f l = flat_map g l.
Proof.
  induction l as [|a l IH]; simpl; intros H; [done|].
  rewrite (H a) by by left. f_equal. apply IH. intros b Hb. apply H. by right.
Qed.

Lemma voters_append_user t name email pw s o :
  schema_ok s →
  PollOption_voters (snd (append_user t name email pw s)) o = PollOption_voters s o.
Proof.
  intros Hs. unfold PollOption_voters. cbn [append_user snd users votes]. f_equal.
  apply flat_map_ext_In. intros v [Hv _]%filter_In.
  rewrite List.filter_app. cbn [List.filter user_id].
  destruct (users_pk s Hs) as [_ Hlt]. rewrite Forall_forall in Hlt.
  apply (votes_user_fk s Hs), list_elem_of_In, Hlt in Hv.
  replace (users_id_seq s =? vote_user_id v) with false by lia. by rewrite app_nil_r.
Qed.

Lemma voters_insert_vote_other t uid oid s o :
  option_id o ≠ oid →
  PollOption_voters (insert_vote t uid oid s) o = PollOption_voters s o.
Proof.
  intros Hne. unfold PollOption_voters. cbn [insert_vote users votes].
  rewrite List.filter_app. cbn [List.filter vote_poll_option_id].
  replace (oid =? option_id o) with false by lia. by rewrite app_nil_r.
Qed.

Lemma option_rows_other_poll t pid pid' next opts :
  pid' ≠ pid →
  List.filter (fun o => option_poll_id o =? pid') (option_rows t pid next opts) = [].
Proof.
  intros Hne. revert next. induction opts as [|a opts IH]; intros next; simpl; [done|].
  replace (pid =? pid') with false by lia. apply IH.
Qed.

Lemma poll_response_ext s s' poll :
  poll_options s' = poll_options s →
  (∀ o, In o (Poll_options s poll) → PollOption_voters s' o = PollOption_voters s o) →
  poll_response s' poll = poll_response s poll.
Proof.
  intros Ho Hv. unfold poll_response. f_equal.
  assert (Poll_options s' poll = Poll_options s poll) as -> by (unfold Poll_options; by rewrite Ho).
  apply map_ext_in. intros o Hin. unfold option_response. by rewrite Hv.
Qed.

Lemma poll_response_create_poll env req creator s poll :
  schema_ok s → In poll (polls s) →
  poll_response
    (append_options env (polls_id_seq s) (pc_options req)
       (snd (insert_poll (now env) (pc_question req) (pc_is_published req) creator s)))
    poll
  = poll_response s poll.
Proof.
  intros Hs Hin. unfold poll_response. f_equal.
  assert (poll_id poll ≠ polls_id_seq s) as Hne.
  { destruct (polls_pk s Hs) as [_ Hlt]. rewrite Forall_forall in Hlt.
    apply (in_map poll_id), list_elem_of_In, Hlt in Hin. lia. }
  unfold Poll_options. rewrite append_options_rows. cbn [insert_poll snd poll_options].
  rewrite List.filter_app, option_rows_other_poll, app_nil_r by done.
  apply map_ext. intros o. unfold option_response. f_equal. f_equal. f_equal.
  apply voters_ext; [by rewrite append_options_users | by rewrite append_options_votes].
Qed.

(** X13: the snapshot of a poll changes only through accepted votes on
    that poll's own options.  On a store that satisfies its schema, after
    any request that is not such a vote (a new user, a new poll, whether
    stored whole or refused half-way, a read, a registry call, a websocket
    request, a vote on an option of another poll, or a vote that is
    rejected, be it on this poll) [get_poll] answers for an existing poll
    exactly what it answered before. *)
Theorem snapshot_changes_only_by_own_votes op w pid poll :
  schema_ok (db w) →
  query_poll (db w) pid = Some poll →
  (∀ env vote uid o r,
     op = OpCastVote env vote uid →
     query_poll_option (db w) (vc_poll_option_id vote) = Some o →
     snd (cast_vote env vote uid w) = inr r →
     option_poll_id o ≠ pid) →
  get_poll pid w = (w, inr (poll_response (db w) poll)) ∧
  get_poll pid (step op w) = (step op w, inr (poll_response (db w) poll)).
Proof.
  intros Hs Hp Hvote. unfold get_poll.
  split; [by apply get_poll_with_votes_found|].
  pose proof Hp as [Hin Hpid]%query_poll_Some.
  cut (query_poll (db (step op w)) pid = Some poll ∧
       poll_response (db (step op w)) poll = poll_response (db w) poll).
  { intros [Hq <-]. by apply get_poll_with_votes_found. }
  destruct op as [env user|env req creator|p|env vote uid|p c|c|env c p]; cbn [step] in *.
  - destruct (create_user_db env user w) as [->|[->| ->]]; [done| |].
    + split.
      * unfold query_poll in *. by cbn [append_user snd polls].
      * apply poll_response_ext; [done|]. intros o _. by apply voters_append_user.
    + split; [done|]. apply poll_response_ext; [done|]. intros o _. by apply voters_ext.
  - destruct (create_poll_db env req creator w) as [->|[[_ ->]|[_ ->]]]; [done| |].
    + split.
      * unfold query_poll in *. rewrite append_options_polls. cbn [insert_poll snd polls].
        by apply find_app_Some.
      * by apply poll_response_create_poll.
    + split.
      * unfold query_poll in *. cbn [skip_poll_options_id insert_poll snd polls].
        by apply find_app_Some.
      * apply poll_response_ext; [done|]. intros o _. by apply voters_ext.
  - by rewrite get_poll_with_votes_world.
  - destruct (cast_vote env vote uid w) as [w' [e|r]] eqn:Hc; cbn [fst].
    { by rewrite (cast_vote_rejected_unchanged _ _ _ _ _ _ Hc). }
    pose proof Hc as (user & o & poll0 & Hu & Ho & Hp0 & Hscan & Hacc)%cast_vote_accepted_inv.
    assert (db w' = insert_vote (now env) uid (option_id o) (db w)) as ->.
    { unfold vote_accepted in Hacc. inversion Hacc. apply after_broadcast_db. }
    split; [done|].
    pose proof Ho as [Hoin Hoid]%query_poll_option_Some.
    apply poll_response_ext; [done|]. intros o' [Ho' Hpo']%filter_In.
    apply voters_insert_vote_other. intros Heq.
    assert (o' = o) as ->.
    { apply (key_determines_row option_id (poll_options (db w))); [|done|done|done].
      apply sorted_lt_NoDup, (poll_options_pk _ Hs). }
    apply (Hvote env vote uid o r eq_refl Ho); [by rewrite Hc | lia].
  - done.
  - done.
  - by rewrite websocket_endpoint_db.
Qed.

(** Poll 1 with Ann's vote, when Ann votes on it once more and is
    rejected. *)
Lemma snapshot_changes_only_by_own_votes_witness :
  let op := OpCastVote env0 (mkVoteCreate 2) 1 in
  schema_ok (db voted_world) ∧
  query_poll (db voted_world) 1 = Some tea_poll ∧
  option_poll_id <$> query_poll_option (db voted_world) 2 = Some 1 ∧
  (∀ env vote uid o r,
     op = OpCastVote env vote uid →
     query_poll_option (db voted_world) (vc_poll_option_id vote) = Some o →
     snd (cast_vote env vote uid voted_world) = inr r →
     option_poll_id o ≠ 1) ∧
  get_poll 1 voted_world = (voted_world, inr (poll_response (db voted_world) tea_poll)) ∧
  get_poll 1 (step op voted_world)
  = (step op voted_world, inr (poll_response (db voted_world) tea_poll)).
Proof.
  intros op.
  assert (schema_ok (db voted_world)) as Hs by apply schema_ok_run, schema_ok_empty.
  assert (query_poll (db voted_world) 1 = Some tea_poll) as Hp by (vm_compute; reflexivity).
  assert (∀ env vote uid o r,
            op = OpCastVote env vote uid →
            query_poll_option (db voted_world) (vc_poll_option_id vote) = Some o →
            snd (cast_vote env vote uid voted_world) = inr r →
            option_poll_id o ≠ 1) as Hv.
  { intros env vote uid o r [= <- <- <-] _ Hr. vm_compute in Hr. discriminate Hr. }
  split; [exact Hs|]. split; [exact Hp|]. split; [vm_compute; reflexivity|].
  split; [exact Hv|].
  exact (snapshot_changes_only_by_own_votes op voted_world 1 tea_poll Hs Hp Hv).
Defined.

(** ** When a vote is accepted *)

Lemma scan_hit_has_vote s uid poll :
  prior_vote_in_poll s uid poll = true → votes_in_poll s uid (poll_id poll) ≠ [].
Proof.
  intros (v & [Hv Hvu]%filter_In & (x & Hx & Heq)%existsb_exists)%existsb_exists.
  apply in_map_iff in Hx as (o & <- & [Ho Hop]%filter_In).
  intros Hnil.
  assert (In v (votes_in_poll s uid (poll_id poll))) as Hin; [|by rewrite Hnil in Hin].
  apply filter_In. split; [done|]. apply andb_true_iff. split; [done|].
  apply existsb_exists. exists o. split; [done|]. apply andb_true_iff. split; lia.
Qed.

Lemma first_vote_accepted env vote uid w o :
  schema_ok (db w) →
  is_Some (query_user (db w) uid) →
  query_poll_option (db w) (vc_poll_option_id vote) = Some o →
  votes_in_poll (db w) uid (option_poll_id o) = [] →
  ∃ w', cast_vote env vote uid w
        = (w', inr (mkVoteResponse uid (vc_poll_option_id vote) (utcnow env))) ∧
        votes (db w')
        = votes (db w) ++ [mkVote (votes_id_seq (db w)) uid (vc_poll_option_id vote)
                             (now env)] ∧
        users (db w') = users (db w) ∧ polls (db w') = polls (db w) ∧
        poll_options (db w') = poll_options (db w).
Proof.
  intros Hs [u Hu] Ho Hvotes. rewrite cast_vote_run, Hu, Ho.
  pose proof Ho as [Hoin Hoid]%query_poll_option_Some.
  destruct (poll_of_id (db w) (option_poll_id o)) as [poll Hp];
    [by apply (poll_options_poll_fk _ Hs)|].
  rewrite Hp. pose proof Hp as [_ Hpid]%query_poll_Some.
  destruct (prior_vote_in_poll (db w) uid poll) eqn:Hscan.
  - apply scan_hit_has_vote in Hscan. by rewrite Hpid in Hscan.
  - unfold vote_accepted. eexists. split; [by rewrite Hoid|].
    by rewrite after_broadcast_db.
Qed.

(** X14: on a store that satisfies its schema [cast_vote] is decided by
    three checks, in this order, and fails in no other way: no such user,
    404 "User not found"; no such option, 404 "Poll option not found"; the
    user holds a vote on some option of the option's poll, 400 "User has
    already voted for this poll"; each leaves the server state as it is.
    Otherwise the vote is accepted: one row (user, option, database time)
    is appended to the votes table and the response names user and
    option. *)
Theorem cast_vote_decision env vote uid w :
  schema_ok (db w) →
  (query_user (db w) uid = None →
   cast_vote env vote uid w = (w, inl (HTTPException 404 "User not found"))) ∧
  (is_Some (query_user (db w) uid) →
   query_poll_option (db w) (vc_poll_option_id vote) = None →
   cast_vote env vote uid w = (w, inl (HTTPException 404 "Poll option not found"))) ∧
  (∀ o, is_Some (query_user (db w) uid) →
        query_poll_option (db w) (vc_poll_option_id vote) = Some o →
        votes_in_poll (db w) uid (option_poll_id o) ≠ [] →
        cast_vote env vote uid w
        = (w, inl (HTTPException 400 "User has already voted for this poll"))) ∧
  (∀ o, is_Some (query_user (db w) uid) →
        query_poll_option (db w) (vc_poll_option_id vote) = Some o →
        votes_in_poll (db w) uid (option_poll_id o) = [] →
        ∃ w', cast_vote env vote uid w
              = (w', inr (mkVoteResponse uid (vc_poll_option_id vote) (utcnow env))) ∧
              votes (db w')
              = votes (db w) ++ [mkVote (votes_id_seq (db w)) uid (vc_poll_option_id vote)
                                   (now env)] ∧
              users (db w') = users (db w) ∧ polls (db w') = polls (db w) ∧
              poll_options (db w') = poll_options (db w)).
Proof.
  intros Hs. split; [|split; [|split]].
  - rewrite cast_vote_run. by intros ->.
  - rewrite cast_vote_run. by intros [u ->] ->.
  - rewrite cast_vote_run. intros o [u ->] Ho Hvotes. rewrite Ho.
    pose proof Ho as [Hoin Hoid]%query_poll_option_Some.
    destruct (poll_of_id (db w) (option_poll_id o)) as [poll Hp];
      [by apply (poll_options_poll_fk _ Hs)|].
    rewrite Hp. pose proof Hp as [_ Hpid]%query_poll_Some.
    destruct (prior_vote_in_poll (db w) uid poll) eqn:Hscan; [done|].
    apply scan_clear_no_votes in Hscan. by rewrite Hpid in Hscan.
  - intros o Hu Ho Hvotes. exact (first_vote_accepted env vote uid w o Hs Hu Ho Hvotes).
Qed.

(** Ann, who voted on poll 1, votes on poll 2. *)
Lemma cast_vote_decision_witness :
  let vote := mkVoteCreate 3 in
  schema_ok (db voted_world) ∧
  (query_user (db voted_world) 1 = None →
   cast_vote env0 vote 1 voted_world
   = (voted_world, inl (HTTPException 404 "User not found"))) ∧
  (is_Some (query_user (db voted_world) 1) →
   query_poll_option (db voted_world) (vc_poll_option_id vote) = None →
   cast_vote env0 vote 1 voted_world
   = (voted_world, inl (HTTPException 404 "Poll option not found"))) ∧
  (∀ o, is_Some (query_user (db voted_world) 1) →
        query_poll_option (db voted_world) (vc_poll_option_id vote) = Some o →
        votes_in_poll (db voted_world) 1 (option_poll_id o) ≠ [] →
        cast_vote env0 vote 1 voted_world
        = (voted_world, inl (HTTPException 400 "User has already voted for this poll"))) ∧
  (∀ o, is_Some (query_user (db voted_world) 1) →
        query_poll_option (db voted_world) (vc_poll_option_id vote) = Some o →
        votes_in_poll (db voted_world) 1 (option_poll_id o) = [] →
        ∃ w', cast_vote env0 vote 1 voted_world
              = (w', inr (mkVoteResponse 1 (vc_poll_option_id vote) (utcnow env0))) ∧
              votes (db w')
              = votes (db voted_world)
                ++ [mkVote (votes_id_seq (db voted_world)) 1 (vc_poll_option_id vote)
                      (now env0)] ∧
              users (db w') = users (db voted_world) ∧
              polls (db w') = polls (db voted_world) ∧
              poll_options (db w') = poll_options (db voted_world)).
Proof.
  intros vote.
  assert (schema_ok (db voted_world)) as Hs by apply schema_ok_run, schema_ok_empty.
  split; [exact Hs|].
  exact (cast_vote_decision env0 vote 1 voted_world Hs).
Defined.

Example vote_in_each_poll :
  snd (cast_vote env0 (mkVoteCreate 3) 1 voted_world) = inr (mkVoteResponse 1 3 200) ∧
  votes_in_poll (db voted_world) 1 1 = [mkVote 1 1 1 100] ∧
  votes_in_poll (db voted_world) 1 2 = [].
Proof. split; [|split]; vm_compute; reflexivity. Qed.

(** ** The store only grows *)

Lemma grows_to_refl s : grows_to s s.
Proof. by repeat split. Qed.

Lemma grows_to_trans s1 s2 s3 : grows_to s1 s2 → grows_to s2 s3 → grows_to s1 s3.
Proof.
  intros (H1 & H2 & H3 & H4) (K1 & K2 & K3 & K4).
  repeat split; by etrans.
Qed.

Lemma grows_to_step op w : grows_to (db w) (db (step op w)).
Proof.
  destruct op as [env user|env req creator|p|env vote uid|p c|c|env c p]; cbn [step].
  - destruct (create_user_db env user w) as [->|[->| ->]]; [apply grows_to_refl| |].
    + repeat split; simpl; try done. by apply prefix_app_r.
    + by repeat split.
  - destruct (create_poll_db env req creator w) as [->|[[_ ->]|[_ ->]]];
      [apply grows_to_refl| |].
    + unfold grows_to.
      rewrite append_options_users, append_options_polls, append_options_votes,
        append_options_rows.
      repeat split; simpl; try done; by apply prefix_app_r.
    + repeat split; simpl; try done. by apply prefix_app_r.
  - rewrite get_poll_with_votes_world. apply grows_to_refl.
  - destruct (cast_vote_db env vote uid w)
      as [->|(? & ? & ? & _ & _ & _ & _ & ->)]; [apply grows_to_refl|].
    repeat split; simpl; try done. by apply prefix_app_r.
  - apply grows_to_refl.
  - apply grows_to_refl.
  - rewrite websocket_endpoint_db. apply grows_to_refl.
Qed.

Lemma grows_to_run ops w : grows_to (db w) (db (run ops w)).
Proof.
  revert w. induction ops as [|op ops IH]; intros w; simpl; [apply grows_to_refl|].
  eapply grows_to_trans; [apply grows_to_step | apply IH].
Qed.

(** X15: the server never deletes or rewrites a row.  Over every sequence
    of requests each of the four tables before is an initial segment of
    the table after, so a user, poll or option once stored is found
    unchanged by every later lookup by id, and the votes a user holds for
    an option stay. *)
Theorem store_only_grows ops w :
  grows_to (db w) (db (run ops w)) ∧
  (∀ uid u, query_user (db w) uid = Some u → query_user (db (run ops w)) uid = Some u) ∧
  (∀ pid p, query_poll (db w) pid = Some p → query_poll (db (run ops w)) pid = Some p) ∧
  (∀ oid o, query_poll_option (db w) oid = Some o →
            query_poll_option (db (run ops w)) oid = Some o) ∧
  (∀ uid oid, stored_votes (db w) uid oid `prefix_of` stored_votes (db (run ops w)) uid oid).
Proof.
  pose proof (grows_to_run ops w) as Hg. split; [exact Hg|].
  destruct Hg as ([ku Hu] & [kp Hp] & [ko Ho] & [kv Hv]).
  split; [|split; [|split]].
  - intros uid u H. unfold query_user in *. rewrite Hu. by apply find_app_Some.
  - intros pid p H. unfold query_poll in *. rewrite Hp. by apply find_app_Some.
  - intros oid o H. unfold query_poll_option in *. rewrite Ho. by apply find_app_Some.
  - intros uid oid. unfold stored_votes. rewrite Hv, List.filter_app. by apply prefix_app_r.
Qed.

(** ** Keys and references *)

(** X16: the handlers keep the store well-formed without the database's
    help.  From a store that satisfies the schema (ids ascending and
    below their sequence, every vote naming a user and an option that
    exist, every option naming a poll that exists) every sequence of
    requests leads to such a store, and so does every sequence from empty
    tables; there [cast_vote] never fails with an error other than its
    three HTTP errors. *)
Theorem schema_is_kept ops w :
  schema_ok (db w) →
  schema_ok (db (run ops w)) ∧
  schema_ok (db (run ops initial_world)) ∧
  ∀ env vote uid e,
    snd (cast_vote env vote uid (run ops w)) = inl e →
    ∃ status detail, e = HTTPException status detail ∧ (status = 404 ∨ status = 400).
Proof.
  intros Hs.
  assert (schema_ok (db (run ops w))) as Hs' by by apply schema_ok_run.
  split; [exact Hs'|]. split; [apply schema_ok_run, schema_ok_empty|].
  intros env vote uid e. rewrite cast_vote_run.
  destruct (query_user (db (run ops w)) uid); [|intros [= <-]; eauto].
  destruct (query_poll_option (db (run ops w)) (vc_poll_option_id vote)) as [o|] eqn:Ho;
    [|intros [= <-]; eauto].
  apply query_poll_option_Some in Ho as [Hoin _].
  destruct (poll_of_id (db (run ops w)) (option_poll_id o)) as [poll Hp];
    [by apply (poll_options_poll_fk _ Hs')|].
  rewrite Hp. destruct (prior_vote_in_poll (db (run ops w)) uid poll);
    [intros [= <-]; eauto | done].
Qed.

Lemma schema_is_kept_witness :
  schema_ok (db initial_world) ∧
  schema_ok (db (run demo_ops initial_world)) ∧
  schema_ok (db (run demo_ops initial_world)) ∧
  ∀ env vote uid e,
    snd (cast_vote env vote uid (run demo_ops initial_world)) = inl e →
    ∃ status detail, e = HTTPException status detail ∧ (status = 404 ∨ status = 400).
Proof.
  split; [exact schema_ok_empty|].
  exact (schema_is_kept demo_ops initial_world schema_ok_empty).
Defined.

(** ** Counts over time and over a poll *)

Lemma distinct_voters_grow s s' oid :
  votes s `prefix_of` votes s' → distinct_voters s oid ⊆ distinct_voters s' oid.
Proof.
  intros [k Hk]. unfold distinct_voters. rewrite Hk, List.filter_app, map_app.
  rewrite list_to_set_app_L. apply union_subseteq_l.
Qed.

Lemma snapshot_count_grows s s' pid oid k :
  schema_ok s → schema_ok s' → grows_to s s' →
  snapshot_count s pid oid = Some k →
  ∃ k', snapshot_count s' pid oid = Some k' ∧ k ≤ k'.
Proof.
  intros Hs Hs' (_ & [kp Hp] & [ko Ho] & Hv). rewrite !snapshot_count_spec by done.
  destruct (query_poll s pid) as [poll|] eqn:Hq; [|done].
  unfold query_poll in *. rewrite Hp, (find_app_Some _ _ _ _ Hq).
  destruct (List.find _ (Poll_options s poll)) as [o|] eqn:Hf; [|done].
  unfold Poll_options in *. rewrite Ho, List.filter_app, (find_app_Some _ _ _ _ Hf).
  simpl. intros [= <-]. eexists. split; [done|].
  apply inj_le, subseteq_size. by apply distinct_voters_grow.
Qed.

(** X17: a reported vote count never goes down.  On a store that
    satisfies its schema, whatever an option of a poll is reported with,
    after any sequence of requests the snapshot still lists that option
    and reports at least as many votes for it. *)
Theorem vote_counts_never_decrease ops w pid oid k :
  schema_ok (db w) →
  snapshot_count (db w) pid oid = Some k →
  ∃ k', snapshot_count (db (run ops w)) pid oid = Some k' ∧ k ≤ k'.
Proof.
  intros Hs Hk. apply (snapshot_count_grows (db w)); try done.
  - by apply schema_ok_run.
  - apply grows_to_run.
Qed.

(** "yes" on poll 1 has one vote; then Bob votes for it too. *)
Lemma vote_counts_never_decrease_witness :
  schema_ok (db voted_world) ∧
  snapshot_count (db voted_world) 1 1 = Some 1 ∧
  ∃ k', snapshot_count (db (run [OpCastVote env0 (mkVoteCreate 1) 2;
                                 OpDisconnect 1%nat] voted_world)) 1 1 = Some k' ∧
        1 ≤ k'.
Proof.
  assert (schema_ok (db voted_world)) as Hs by apply schema_ok_run, schema_ok_empty.
  assert (snapshot_count (db voted_world) 1 1 = Some 1) as Hk by (vm_compute; reflexivity).
  split; [exact Hs|]. split; [exact Hk|].
  exact (vote_counts_never_decrease _ voted_world 1 1 1 Hs Hk).
Defined.

(** Counting the votes of [vs] option by option, over options with
    pairwise distinct ids, counts each vote on one of them once. *)
Lemma votes_by_option (os : list PollOption) (vs : list Vote) :
  NoDup (map option_id os) →
  foldr Z.add 0
    (map (fun o => Z.of_nat (length (List.filter
                                      (fun v => vote_poll_option_id v =? option_id o) vs))) os)
  = Z.of_nat (length (List.filter
                        (fun v => existsb (fun o => option_id o =? vote_poll_option_id v) os)
                        vs)).
Proof.
  induction os as [|o os IH]; intros Hnd; simpl.
  - by rewrite List.filter_false.
  - apply NoDup_cons in Hnd as [Ho Hnd]. rewrite IH by done. clear IH.
    induction vs as [|v vs IHv]; simpl; [done|].
    destruct (vote_poll_option_id v =? option_id o) eqn:Hv.
    + replace (option_id o =? vote_poll_option_id v) with true by lia. simpl.
      assert (existsb (fun o0 => option_id o0 =? vote_poll_option_id v) os = false) as Hex.
      { destruct (existsb _ os) eqn:Hex; [|done]. exfalso. apply Ho.
        apply existsb_exists in Hex as (o' & Ho' & Heq).
        apply list_elem_of_In, in_map_iff. exists o'. split; [lia | done]. }
      rewrite Hex. simpl length. lia.
    + replace (option_id o =? vote_poll_option_id v) with false by lia. simpl.
      destruct (existsb _ os); simpl length; lia.
Qed.

Lemma existsb_filter {A} (f g : A → bool) l :
  existsb f (List.filter g l) = existsb (fun x => f x && g x) l.
Proof.
  induction l as [|a l IH]; simpl; [done|].
  destruct (g a); simpl; rewrite IH; [by rewrite andb_true_r | by rewrite andb_false_r].
Qed.

Lemma one_vote_each (P : Vote → bool) vs :
  (∀ u, (length (List.filter (fun v => (vote_user_id v =? u)%Z && P v) vs) ≤ 1)%nat) →
  NoDup (map vote_user_id (List.filter P vs)).
Proof.
  induction vs as [|v vs IH]; simpl; intros Hle; [constructor|].
  assert (NoDup (map vote_user_id (List.filter P vs))) as Hrest.
  { apply IH. intros u. specialize (Hle u).
    destruct ((vote_user_id v =? u) && P v); simpl in Hle; lia. }
  destruct (P v) eqn:HP; [|done].
  simpl. apply NoDup_cons. split; [|done].
  rewrite list_elem_of_In, in_map_iff. intros (v' & Hu & [Hin HP']%filter_In).
  specialize (Hle (vote_user_id v)). rewrite Z.eqb_refl in Hle. simpl in Hle.
  assert (In v' (List.filter (fun v0 => (vote_user_id v0 =? vote_user_id v) && P v0) vs))
    as Hin'.
  { apply filter_In. split; [done|]. apply andb_true_iff. split; [lia | done]. }
  destruct (List.filter (fun v0 => (vote_user_id v0 =? vote_user_id v) && P v0) vs);
    [done | simpl in Hle; lia].
Qed.

(** X18: the counts of a snapshot add up to the votes cast on the poll.
    On a store that satisfies its schema and I1, the vote counts of the
    options of a snapshot sum to the number of vote rows on options of
    that poll, and those rows are from pairwise distinct users: the total
    is the number of users who have voted in the poll. *)
Theorem snapshot_total_counts_voters w pid poll :
  schema_ok (db w) → I1 (db w) →
  query_poll (db w) pid = Some poll →
  total_votes (poll_response (db w) poll) = Z.of_nat (length (votes_on_poll (db w) pid)) ∧
  NoDup (map vote_user_id (votes_on_poll (db w) pid)).
Proof.
  intros Hs Hi Hp. pose proof Hp as [_ Hpid]%query_poll_Some. split.
  - unfold total_votes, poll_response. cbn [pr_options]. rewrite map_map.
    rewrite (map_ext_in _
               (fun o => Z.of_nat (length (List.filter
                  (fun v => vote_poll_option_id v =? option_id o) (votes (db w)))))).
    + rewrite votes_by_option.
      * unfold votes_on_poll. do 2 f_equal. apply filter_ext. intros v.
        unfold Poll_options, option_of_poll. rewrite existsb_filter, Hpid. done.
      * apply sorted_lt_NoDup, sorted_map_filter, (poll_options_pk _ Hs).
    + intros o [Ho _]%filter_In. unfold option_response. cbn [or_vote_count].
      f_equal. by apply voters_count_rows.
  - apply one_vote_each. intros u. apply (Hi u pid).
Qed.

(** Poll 1 after Ann's vote: one vote in all. *)
Lemma snapshot_total_counts_voters_witness :
  schema_ok (db voted_world) ∧ I1 (db voted_world) ∧
  query_poll (db voted_world) 1 = Some tea_poll ∧
  total_votes (poll_response (db voted_world) tea_poll)
  = Z.of_nat (length (votes_on_poll (db voted_world) 1)) ∧
  NoDup (map vote_user_id (votes_on_poll (db voted_world) 1)).
Proof.
  assert (schema_ok (db voted_world) ∧ I1 (db voted_world)) as [Hs Hi]
    by (apply schema_and_I1_run; [apply schema_ok_empty | apply I1_empty]).
  assert (query_poll (db voted_world) 1 = Some tea_poll) as Hp by (vm_compute; reflexivity).
  split; [exact Hs|]. split; [exact Hi|]. split; [exact Hp|].
  exact (snapshot_total_counts_voters voted_world 1 tea_poll Hs Hi Hp).
Defined.

Example total_after_two_votes :
  (λ w', total_votes (poll_response (db w') tea_poll)) <$> cast_votes env0 2 [2] voted_world
  = Some 2.
Proof. vm_compute. reflexivity. Qed.

(** ** Broadcasts, one after another *)

(** A broadcast to a poll without subscribers (no key, or an empty
    list) changes nothing, whatever the data. *)
Lemma broadcast_to_nobody env pid data w :
  subscribers (manager w) pid = [] → fst (broadcast_poll_update env pid data w) = w.
Proof.
  intros Hnil. rewrite broadcast_poll_update_run. cbn [fst].
  unfold after_broadcast, subscribers in *.
  destruct (poll_subscribers (manager w) !! pid) as [conns|] eqn:Hs; [|done].
  simpl in Hnil. subst conns. unfold attempts. simpl.
  rewrite insert_id by done. destruct (json_encodable data); simpl;
    rewrite app_nil_r; by destruct w as [s [a m] t].
Qed.

(** X19: two broadcasts to one poll, the second perhaps under other
    conditions.  With no subscriber for the poll a broadcast changes
    nothing at all.  The broadcast of a frame of the server sends nothing
    and leaves the poll without a subscriber, so the broadcast that comes
    next for that poll, whatever it carries and whichever sockets could
    then be reached, finds nobody and changes nothing either. *)
Theorem broadcast_twice env env' pid kind poll_data data' w :
  let w1 := fst (broadcast_poll_update env pid (frame kind poll_data) w) in
  let w2 := fst (broadcast_poll_update env' pid data' w1) in
  (subscribers (manager w) pid = [] → w1 = w) ∧
  wire w1 = wire w ∧
  subscribers (manager w1) pid = [] ∧
  w2 = w1.
Proof.
  intros w1 w2. subst w1 w2.
  destruct (broadcast_of_frame env pid kind poll_data w) as (_ & _ & Hwire & Hsub & _).
  split; [apply broadcast_to_nobody|]. split; [exact Hwire|]. split; [exact Hsub|].
  by apply broadcast_to_nobody.
Qed.

(** ** Votes one after another *)

Lemma new_poll_has_no_votes env req creator s uid :
  schema_ok s →
  votes_in_poll
    (append_options env (polls_id_seq s) (pc_options req)
       (snd (insert_poll (now env) (pc_question req) (pc_is_published req) creator s)))
    uid (polls_id_seq s) = [].
Proof.
  intros Hs. unfold votes_in_poll. rewrite append_options_votes. cbn [insert_poll snd votes].
  destruct (List.filter _ (votes s)) as [|v vs] eqn:Hf; [done|]. exfalso.
  assert (In v (v :: vs)) as Hin by by left. rewrite <- Hf in Hin.
  apply filter_In in Hin as [Hin [_ Hopt]%andb_true_iff].
  apply existsb_exists in Hopt as (o & Ho & [Hid Hpid]%andb_true_iff).
  rewrite append_options_rows in Ho. cbn [insert_poll snd poll_options] in Ho.
  apply in_app_or in Ho as [Ho|Ho].
  - destruct (polls_pk s Hs) as [_ Hlt]. rewrite Forall_forall in Hlt.
    apply (poll_options_poll_fk s Hs), list_elem_of_In, Hlt in Ho. lia.
  - apply option_rows_id_ge in Ho. cbn [poll_options_id_seq] in Ho.
    destruct (poll_options_pk s Hs) as [_ Hlt]. rewrite Forall_forall in Hlt.
    apply (votes_option_fk s Hs), list_elem_of_In, Hlt in Hin. lia.
Qed.

(** X20: a poll just created takes a first vote from anyone.  On a store
    that satisfies its schema, after a successful [create_poll] every user
    that exists can cast a vote for every option the answer lists, and the
    vote is accepted. *)
Theorem new_poll_accepts_votes env req creator w w' snap env' uid r :
  schema_ok (db w) →
  create_poll env req creator w = (w', inr snap) →
  is_Some (query_user (db w) uid) →
  In r (pr_options snap) →
  ∃ w'', cast_vote env' (mkVoteCreate (or_id r)) uid w'
         = (w'', inr (mkVoteResponse uid (or_id r) (utcnow env'))) ∧
         snapshot_count (db w'') (pr_id snap) (or_id r) = Some 1.
Proof.
  intros Hs Hc [u Hu] Hr.
  assert (schema_ok (db w')) as Hs'.
  { change w' with (fst (w', @inr exn _ snap)). rewrite <- Hc.
    apply (schema_ok_step (OpCreatePoll env req creator) w Hs). }
  destruct (query_user (db w) creator) as [cr|] eqn:Hcr;
    [|by rewrite create_poll_run, Hcr in Hc].
  destruct (options_fit (pc_options req)) eqn:Hfit;
    [|by destruct (create_poll_refused env req creator w cr Hs Hcr Hfit) as (Hrun & _);
         rewrite Hrun in Hc].
  destruct (create_poll_found env req creator w cr Hs Hcr Hfit) as (Hrun & Hp & Hopts).
  pose proof (new_poll_has_no_votes env req creator (db w) uid Hs) as Hfresh.
  assert (users (append_options env (polls_id_seq (db w)) (pc_options req)
                   (snd (insert_poll (now env) (pc_question req) (pc_is_published req)
                           creator (db w)))) = users (db w)) as Husers
    by by rewrite append_options_users.
  assert (votes (append_options env (polls_id_seq (db w)) (pc_options req)
                   (snd (insert_poll (now env) (pc_question req) (pc_is_published req)
                           creator (db w)))) = votes (db w)) as Hvotes
    by by rewrite append_options_votes.
  set (s2 := append_options env (polls_id_seq (db w)) (pc_options req)
               (snd (insert_poll (now env) (pc_question req) (pc_is_published req)
                       creator (db w)))) in *.
  set (p := mkPoll (polls_id_seq (db w)) (pc_question req) (pc_is_published req)
              (now env) (now env) creator) in *.
  rewrite Hrun in Hc.
  assert (w' = mkWorld s2 (manager w) (wire w)) as -> by congruence.
  assert (snap = poll_response s2 p) as -> by congruence.
  clear Hc Hrun. cbn [db] in Hs'.
  unfold poll_response in Hr. cbn [pr_options] in Hr.
  apply in_map_iff in Hr as (o & <- & Ho).
  pose proof Ho as [Hoin Hopid]%filter_In.
  assert (option_poll_id o = polls_id_seq (db w)) as Hopid'
    by (unfold p in Hopid; cbn [poll_id] in Hopid; lia).
  assert (query_poll_option s2 (option_id o) = Some o) as Hqo.
  { destruct (find_In_Some (fun o' => option_id o' =? option_id o) (poll_options s2) o)
      as [y Hy]; [done | lia|].
    unfold query_poll_option. rewrite Hy. f_equal.
    apply find_some in Hy as [Hyin Hyid].
    apply (key_determines_row option_id (poll_options s2)); [|done|done|lia].
    apply sorted_lt_NoDup, (poll_options_pk _ Hs'). }
  assert (is_Some (query_user s2 uid)) as Hu'.
  { unfold query_user in *. by rewrite Husers, Hu. }
  assert (∀ v, In v (votes s2) → vote_poll_option_id v ≠ option_id o) as Hnovote.
  { intros v Hv. rewrite Hvotes in Hv. rewrite Hopts in Ho. apply option_rows_id_ge in Ho.
    destruct (poll_options_pk _ Hs) as [_ Hlt]. rewrite Forall_forall in Hlt.
    apply (votes_option_fk _ Hs), list_elem_of_In, Hlt in Hv. lia. }
  destruct (first_vote_accepted env' (mkVoteCreate (option_id o)) uid
              (mkWorld s2 (manager w) (wire w)) o Hs' Hu' Hqo) as (w'' & Hcast & _);
    [by rewrite Hopid'|].
  exists w''. cbn [or_id option_response vc_poll_option_id] in *. split; [exact Hcast|].
  destruct (cast_vote_counts env' (option_id o) uid (mkWorld s2 (manager w) (wire w))
              w'' _ Hs' Hcast) as (Hs'' & Hup & _).
  rewrite Hup. cbn [db]. change (pr_id (poll_response s2 p)) with (polls_id_seq (db w)).
  rewrite snapshot_count_spec by done. rewrite Hp.
  assert (List.find (fun o' => option_id o' =? option_id o) (Poll_options s2 p) ≠ None)
    as Hfind.
  { intros Hnone. pose proof (find_none _ _ Hnone o Ho) as Hb. simpl in Hb. lia. }
  destruct (List.find _ (Poll_options s2 p)) as [o0|]; [|done]. simpl.
  replace (distinct_voters s2 (option_id o)) with (∅ : gset Z); [done|].
  symmetry. unfold distinct_voters.
  replace (List.filter (fun v => vote_poll_option_id v =? option_id o) (votes s2))
    with (@nil Vote); [done|].
  symmetry. destruct (List.filter _ (votes s2)) as [|v vs] eqn:Hf; [done|]. exfalso.
  assert (In v (v :: vs)) as Hin by by left. rewrite <- Hf in Hin.
  apply filter_In in Hin as [Hin Hv]. apply Hnovote in Hin. lia.
Qed.

Lemma new_poll_accepts_votes_witness :
  let req := mkPollCreate "red?" [mkPollOptionCreate "a"; mkPollOptionCreate "b"] true in
  let w' := fst (create_poll env0 req 2 voted_world) in
  let r := mkPollOptionResponse 5 "b" 0 in
  let snap := mkPollResponse 3 "red?" true 100 100 2 [mkPollOptionResponse 4 "a" 0; r] in
  schema_ok (db voted_world) ∧
  create_poll env0 req 2 voted_world = (w', inr snap) ∧
  is_Some (query_user (db voted_world) 1) ∧
  In r (pr_options snap) ∧
  ∃ w'', cast_vote env_later (mkVoteCreate (or_id r)) 1 w'
         = (w'', inr (mkVoteResponse 1 (or_id r) (utcnow env_later))) ∧
         snapshot_count (db w'') (pr_id snap) (or_id r) = Some 1.
Proof.
  intros req w' r snap.
  assert (schema_ok (db voted_world)) as Hs by apply schema_ok_run, schema_ok_empty.
  assert (create_poll env0 req 2 voted_world = (w', inr snap)) as Hc
    by (vm_compute; reflexivity).
  assert (is_Some (query_user (db voted_world) 1)) as Hu by (vm_compute; eauto).
  assert (In r (pr_options snap)) as Hr by (right; left; reflexivity).
  split; [exact Hs|]. split; [exact Hc|]. split; [exact Hu|]. split; [exact Hr|].
  exact (new_poll_accepts_votes env0 req 2 voted_world w' snap env_later 1 r Hs Hc Hu Hr).
Defined.

(** ** What reaches a websocket *)

Lemma step_wire op w : wire (step op w) = wire w.
Proof.
  destruct op as [env user|env req creator|p|env vote uid|p c|c|env c p]; cbn [step].
  - rewrite create_user_run.
    destruct (query_user_by_email (db w) (uc_email user)); [done|].
    by destruct (user_fits env user).
  - rewrite create_poll_run. destruct (query_user (db w) creator); [|done]. cbv zeta.
    destruct (options_fit (pc_options req)); [|done].
    by rewrite get_poll_with_votes_world.
  - by rewrite get_poll_with_votes_world.
  - destruct (cast_vote env vote uid w) as [w' [e|r]] eqn:Hc; cbn [fst].
    + by rewrite (cast_vote_rejected_unchanged _ _ _ _ _ _ Hc).
    + apply cast_vote_accepted_inv in Hc as (user & o & poll & _ & _ & _ & _ & Hacc).
      unfold vote_accepted in Hacc. inversion Hacc as [[Hw Hr]].
      by rewrite after_broadcast_frame_wire.
  - done.
  - done.
  - by rewrite websocket_endpoint_run.
Qed.

Lemma route_leaves_no_subscriber op w :
  is_route op = true →
  (∀ pid, subscribers (manager w) pid = []) →
  ∀ pid, subscribers (manager (step op w)) pid = [].
Proof.
  intros Hr Hnil pid.
  destruct op as [env user|env req creator|p|env vote uid|p c|c|env c p];
    cbn [step is_route] in *; try done.
  - by rewrite create_user_manager.
  - by rewrite create_poll_manager.
  - by rewrite get_poll_with_votes_world.
  - by destruct (cast_vote_subscribers_eq env vote uid w pid) as [->| ->].
  - by rewrite subscribers_disconnect, Hnil.
  - rewrite websocket_endpoint_run, subscribers_disconnect, subscribers_subscribe,
      subscribers_connect, Hnil.
    case_decide; [|done]. simpl. apply (discard_last c []). by intros [].
Qed.

(** X21: the server never sends a frame.  Over every sequence of
    requests, from every state, the trace of [send_text] calls is as it
    was: the websocket route ends before its first send, and the
    broadcast of a vote fails to serialise its frame for every subscriber.
    And over the requests that come in through the routes, from a fresh
    server, no poll ever has a subscriber once a request is done, so the
    broadcast of a vote has nobody to go to. *)
Theorem no_frame_is_ever_sent ops w :
  wire (run ops w) = wire w ∧
  wire (run ops initial_world) = [] ∧
  (forallb is_route ops = true →
   ∀ pid, subscribers (manager (run ops initial_world)) pid = []).
Proof.
  assert (∀ w0, wire (run ops w0) = wire w0) as Hwire.
  { induction ops as [|op ops IH]; intros w0; simpl; [done|].
    by rewrite IH, step_wire. }
  split; [apply Hwire|]. split; [apply Hwire|].
  intros Hr.
  assert (∀ ops' w0, forallb is_route ops' = true →
                     (∀ pid, subscribers (manager w0) pid = []) →
                     ∀ pid, subscribers (manager (run ops' w0)) pid = []) as Hsub.
  { clear. induction ops' as [|op ops' IH]; intros w0 Hr Hnil; simpl in *; [done|].
    apply andb_true_iff in Hr as [Hop Hr].
    apply IH; [done|]. by apply route_leaves_no_subscriber. }
  apply Hsub; [done|]. intros pid. unfold subscribers. simpl. by rewrite lookup_empty.
Qed.

(** After the requests of [route_ops], three of them websocket requests
    for polls that exist. *)
Example routes_leave_no_subscriber :
  wire (run route_ops initial_world) = [] ∧
  poll_subscribers (manager (run route_ops initial_world))
  = {[ 1 := []; 2 := []; 77 := [] ]}.
Proof. split; vm_compute; reflexivity. Qed.
